(** * The data-access layer of the dashboard examples

    A shallow embedding of [DatabaseManager] (chapter 7,
    [basic_database.py] and [crud_operations.py]), of the report queries of
    [database_dashboard.py] and of [DataManager.get_sales_summary]
    (chapter 10), over a model of the embedded SQL driver they call.

    The generic CRUD helpers build the text of one SQL statement out of a
    table name and the keys of a Python dict and hand it to the driver together
    with the list of the dict's values.  The embedding keeps that shape: the
    helpers compute a [string], the driver model tokenises and parses the
    string, binds the parameter list and runs the statement on a
    [database].  *)

From Stdlib Require Import String Ascii List ZArith QArith Bool Lia.
From Stdlib.Strings Require Import Byte.
Import ListNotations.

Local Open Scope Z_scope.
Local Open Scope string_scope.
Local Open Scope list_scope.

(** ** Python values that the driver can bind and return

    [None], [int] (and [bool], a subclass of [int]), [float], [str] and
    [bytes].  A float is kept as an exact rational: no statement below
    depends on rounding.  *)

Inductive value : Type :=
| VNull
| VInt (z : Z)
| VReal (q : Q)
| VText (s : string)
| VBlob (b : list byte).

(** A Python dict keeps its keys in insertion order, and that order is the
    order of the columns and of the parameters in the generated SQL.  *)
Definition dict := list (string * value).

Definition keys (d : dict) : list string := map fst d.
Definition values (d : dict) : list value := map snd d.

(** The exceptions that can leave the helpers.  [ValidationError] is the class
    declared at the top of [crud_operations.py]; the others are the driver's. *)
Inductive exn : Type :=
| OperationalError
| IntegrityError
| ProgrammingError
| OverflowError
| TypeError
| ValidationError.

Inductive result (A : Type) : Type :=
| Ok (a : A)
| Raise (e : exn).
Arguments Ok {A} a.
Arguments Raise {A} e.

Definition bind {A B} (r : result A) (k : A -> result B) : result B :=
  match r with
  | Ok a => k a
  | Raise e => Raise e
  end.

Notation "x <- r ;; k" := (bind r (fun x => k))
  (at level 61, r at next level, right associativity).
Notation "'check' b 'else' e ;; k" := (if b then k else Raise e)
  (at level 61, b at next level, e at next level, right associativity).

Definition of_option {A} (e : exn) (o : option A) : result A :=
  match o with
  | Some a => Ok a
  | None => Raise e
  end.

(** ** Characters and names *)

Definition char_between (lo hi : nat) (c : ascii) : bool :=
  let n := nat_of_ascii c in (lo <=? n)%nat && (n <=? hi)%nat.

Definition is_digit (c : ascii) : bool := char_between 48 57 c.
Definition is_upper (c : ascii) : bool := char_between 65 90 c.
Definition is_lower (c : ascii) : bool := char_between 97 122 c.
Definition is_word_char (c : ascii) : bool :=
  is_digit c || is_upper c || is_lower c || Ascii.eqb c "_"%char.
Definition is_space (c : ascii) : bool :=
  Ascii.eqb c " "%char || Ascii.eqb c "010"%char || Ascii.eqb c "009"%char
  || Ascii.eqb c "013"%char || Ascii.eqb c "012"%char.

Definition to_upper (c : ascii) : ascii :=
  if is_lower c then ascii_of_nat (nat_of_ascii c - 32) else c.

Fixpoint upper (s : string) : string :=
  match s with
  | EmptyString => EmptyString
  | String c s' => String (to_upper c) (upper s')
  end.

Fixpoint all_chars (p : ascii -> bool) (s : string) : bool :=
  match s with
  | EmptyString => true
  | String c s' => p c && all_chars p s'
  end.

(** SQL compares identifiers and keywords without regard to case.  *)
Definition name_eqb (a b : string) : bool := String.eqb (upper a) (upper b).

(** The keywords of the SQL dialect.  A word that is one of them is never
    read as a table or column name by the model.  *)
Definition sql_keywords : list string :=
  [ "ABORT"; "ACTION"; "ADD"; "AFTER"; "ALL"; "ALTER"; "ALWAYS"; "ANALYZE";
    "AND"; "AS"; "ASC"; "ATTACH"; "AUTOINCREMENT"; "BEFORE"; "BEGIN";
    "BETWEEN"; "BY"; "CASCADE"; "CASE"; "CAST"; "CHECK"; "COLLATE"; "COLUMN";
    "COMMIT"; "CONFLICT"; "CONSTRAINT"; "CREATE"; "CROSS"; "CURRENT";
    "CURRENT_DATE"; "CURRENT_TIME"; "CURRENT_TIMESTAMP"; "DATABASE";
    "DEFAULT"; "DEFERRABLE"; "DEFERRED"; "DELETE"; "DESC"; "DETACH";
    "DISTINCT"; "DO"; "DROP"; "EACH"; "ELSE"; "END"; "ESCAPE"; "EXCEPT";
    "EXCLUDE"; "EXCLUSIVE"; "EXISTS"; "EXPLAIN"; "FAIL"; "FILTER"; "FIRST";
    "FOLLOWING"; "FOR"; "FOREIGN"; "FROM"; "FULL"; "GENERATED"; "GLOB";
    "GROUP"; "GROUPS"; "HAVING"; "IF"; "IGNORE"; "IMMEDIATE"; "IN"; "INDEX";
    "INDEXED"; "INITIALLY"; "INNER"; "INSERT"; "INSTEAD"; "INTERSECT"; "INTO";
    "IS"; "ISNULL"; "JOIN"; "KEY"; "LAST"; "LEFT"; "LIKE"; "LIMIT"; "MATCH";
    "MATERIALIZED"; "NATURAL"; "NO"; "NOT"; "NOTHING"; "NOTNULL"; "NULL";
    "NULLS"; "OF"; "OFFSET"; "ON"; "OR"; "ORDER"; "OTHERS"; "OUTER"; "OVER";
    "PARTITION"; "PLAN"; "PRAGMA"; "PRECEDING"; "PRIMARY"; "QUERY"; "RAISE";
    "RANGE"; "RECURSIVE"; "REFERENCES"; "REGEXP"; "REINDEX"; "RELEASE";
    "RENAME"; "REPLACE"; "RESTRICT"; "RETURNING"; "RIGHT"; "ROLLBACK"; "ROW";
    "ROWS"; "SAVEPOINT"; "SELECT"; "SET"; "TABLE"; "TEMP"; "TEMPORARY";
    "THEN"; "TIES"; "TO"; "TRANSACTION"; "TRIGGER"; "UNBOUNDED"; "UNION";
    "UNIQUE"; "UPDATE"; "USING"; "VACUUM"; "VALUES"; "VIEW"; "VIRTUAL";
    "WHEN"; "WHERE"; "WINDOW"; "WITH"; "WITHOUT" ].

Definition is_keyword (w : string) : bool :=
  existsb (String.eqb (upper w)) sql_keywords.

Definition starts_with_digit (w : string) : bool :=
  match w with
  | String c _ => is_digit c
  | EmptyString => false
  end.

(** A plain identifier: letters, digits and underscores, not starting with a
    digit, and not a keyword.  *)
Definition is_name (w : string) : bool :=
  negb (String.eqb w "") && all_chars is_word_char w
  && negb (starts_with_digit w) && negb (is_keyword w).

(** A non-empty run of letters, digits and underscores.  *)
Definition is_word (w : string) : bool :=
  negb (String.eqb w "") && all_chars is_word_char w.

Definition is_number (w : string) : bool :=
  negb (String.eqb w "") && all_chars is_digit w.

Definition kw (k w : string) : bool := String.eqb (upper w) k.

(** ** Python string helpers *)

(** [sep.join(parts)] *)
Definition join (sep : string) (parts : list string) : string :=
  String.concat sep parts.

Definition digit_char (d : Z) : ascii := ascii_of_nat (48 + Z.to_nat d).

Fixpoint digits_of (fuel : nat) (n : Z) (acc : string) : string :=
  match fuel with
  | O => acc
  | S fuel' =>
      let acc' := String (digit_char (n mod 10)) acc in
      if (n / 10 =? 0)%Z then acc' else digits_of fuel' (n / 10) acc'
  end.

(** [str(n)] for an [int] *)
Definition str_of_int (n : Z) : string :=
  let body := digits_of (S (Z.to_nat (Z.log2 (Z.abs n)))) (Z.abs n) "" in
  if (n <? 0)%Z then String "-"%char body else body.

Definition digit_val (c : ascii) : Z := Z.of_nat (nat_of_ascii c - 48).

Fixpoint int_of_digits (acc : Z) (s : string) : Z :=
  match s with
  | EmptyString => acc
  | String c s' => int_of_digits (10 * acc + digit_val c) s'
  end.

(** ** Comments

    The driver drops everything from [--] to the end of the line before it
    reads a statement.  *)

Definition starts_with_dash (s : string) : bool :=
  match s with
  | String c _ => Ascii.eqb c "-"%char
  | EmptyString => false
  end.

Fixpoint strip_comments_from (in_comment : bool) (s : string) : string :=
  match s with
  | EmptyString => EmptyString
  | String c s' =>
      if in_comment then
        if Ascii.eqb c "010"%char
        then String c (strip_comments_from false s')
        else strip_comments_from true s'
      else if Ascii.eqb c "-"%char && starts_with_dash s'
           then strip_comments_from true s'
           else String c (strip_comments_from false s')
  end.

Definition strip_comments (s : string) : string :=
  strip_comments_from false s.

(** ** The tokens of the driver's SQL reader *)

Inductive token : Type :=
| TWord (w : string)
| TLParen
| TRParen
| TComma
| TEq
| TQMark
| TStar
| TMinus
| TBad (c : ascii).

Definition punct (c : ascii) : option token :=
  if Ascii.eqb c "("%char then Some TLParen
  else if Ascii.eqb c ")"%char then Some TRParen
  else if Ascii.eqb c ","%char then Some TComma
  else if Ascii.eqb c "="%char then Some TEq
  else if Ascii.eqb c "?"%char then Some TQMark
  else if Ascii.eqb c "*"%char then Some TStar
  else if Ascii.eqb c "-"%char then Some TMinus
  else None.

Definition flush (w : string) : list token :=
  match w with
  | EmptyString => []
  | _ => [TWord w]
  end.

(** The reader is a left-to-right scan with the word being read as its
    state.  [lex_run toks w s] has emitted [toks] and is inside the word
    [w] when it starts on [s].  *)
Fixpoint lex_run (toks : list token) (w : string) (s : string)
  : list token * string :=
  match s with
  | EmptyString => (toks, w)
  | String c s' =>
      if is_word_char c then lex_run toks (w ++ String c "")%string s'
      else if is_space c then lex_run (toks ++ flush w) "" s'
      else match punct c with
           | Some t => lex_run (toks ++ flush w ++ [t]) "" s'
           | None => lex_run (toks ++ flush w ++ [TBad c]) "" s'
           end
  end.

Definition lex (s : string) : list token :=
  let '(toks, w) := lex_run [] "" s in toks ++ flush w.

(** ** Statements the reader accepts

    The model reads the statements the CRUD helpers emit when the table and
    column names they are given are plain identifiers (and the hand-written
    statements of the same shapes in [database_dashboard.py]); every [?] is a
    positional parameter.  The driver itself reads much more (quoted names,
    literals, several VALUES groups, sub-queries); the model calls all of
    that a syntax error, which is why what a statement does is only ever
    stated below for plain names.  *)

Inductive stmt : Type :=
| SInsert (t : string) (cols : list string) (nvals : nat)
| SSelect (proj : option (list string)) (t : string) (conds : list string)
          (order : list (string * bool)) (limit : option Z)
| SUpdate (t : string) (sets : list string) (conds : list string)
| SDelete (t : string) (conds : list string).

(** [name {, name}] *)
Fixpoint parse_names (ts : list token) : option (list string * list token) :=
  match ts with
  | TWord w :: rest =>
      if is_name w then
        match rest with
        | TComma :: rest' =>
            match parse_names rest' with
            | Some (ns, r) => Some (w :: ns, r)
            | None => None
            end
        | _ => Some ([w], rest)
        end
      else None
  | _ => None
  end.

(** [? {, ?}] *)
Fixpoint parse_qmarks (ts : list token) : option (nat * list token) :=
  match ts with
  | TQMark :: rest =>
      match rest with
      | TComma :: rest' =>
          match parse_qmarks rest' with
          | Some (n, r) => Some (S n, r)
          | None => None
          end
      | _ => Some (1%nat, rest)
      end
  | _ => None
  end.

Definition is_comma (t : token) : bool :=
  match t with TComma => true | _ => false end.

Definition is_and (t : token) : bool :=
  match t with TWord w => kw "AND" w | _ => false end.

(** [name = ? {sep name = ?}] *)
Fixpoint parse_eqs (sep : token -> bool) (ts : list token)
  : option (list string * list token) :=
  match ts with
  | TWord w :: TEq :: TQMark :: rest =>
      if is_name w then
        match rest with
        | s :: rest' =>
            if sep s then
              match parse_eqs sep rest' with
              | Some (ns, r) => Some (w :: ns, r)
              | None => None
              end
            else Some ([w], rest)
        | [] => Some ([w], rest)
        end
      else None
  | _ => None
  end.

Definition cons_parsed {A} (x : A) (o : option (list A * list token))
  : option (list A * list token) :=
  match o with
  | Some (xs, r) => Some (x :: xs, r)
  | None => None
  end.

(** [name [ASC|DESC] {, name [ASC|DESC]}]; the flag is [true] for DESC. *)
Fixpoint parse_order (ts : list token)
  : option (list (string * bool) * list token) :=
  match ts with
  | TWord w :: rest =>
      if is_name w then
        match rest with
        | TWord d :: r =>
            if kw "DESC" d || kw "ASC" d then
              match r with
              | TComma :: rest' =>
                  cons_parsed (w, kw "DESC" d) (parse_order rest')
              | _ => Some ([(w, kw "DESC" d)], r)
              end
            else Some ([(w, false)], rest)
        | TComma :: rest' => cons_parsed (w, false) (parse_order rest')
        | _ => Some ([(w, false)], rest)
        end
      else None
  | _ => None
  end.

(** [[LIMIT [-]digits]] and the end of the statement *)
Definition parse_limit (ts : list token) : option (option Z) :=
  match ts with
  | [] => Some None
  | [TWord l; TWord n] =>
      if kw "LIMIT" l && is_number n then Some (Some (int_of_digits 0 n))
      else None
  | [TWord l; TMinus; TWord n] =>
      if kw "LIMIT" l && is_number n then Some (Some (- int_of_digits 0 n))
      else None
  | _ => None
  end.

(** [[ORDER BY terms] [LIMIT n]] *)
Definition parse_order_limit (ts : list token)
  : option (list (string * bool) * option Z) :=
  match ts with
  | TWord o :: TWord b :: rest =>
      if kw "ORDER" o && kw "BY" b then
        match parse_order rest with
        | Some (os, r) => option_map (pair os) (parse_limit r)
        | None => None
        end
      else option_map (pair []) (parse_limit ts)
  | _ => option_map (pair []) (parse_limit ts)
  end.

(** [[WHERE conds] [ORDER BY terms] [LIMIT n]] *)
Definition parse_select_tail (ts : list token)
  : option (list string * list (string * bool) * option Z) :=
  match ts with
  | TWord w :: rest =>
      if kw "WHERE" w then
        match parse_eqs is_and rest with
        | Some (cs, r) =>
            option_map (fun '(os, l) => (cs, os, l)) (parse_order_limit r)
        | None => None
        end
      else option_map (fun '(os, l) => ([], os, l)) (parse_order_limit ts)
  | _ => option_map (fun '(os, l) => ([], os, l)) (parse_order_limit ts)
  end.

Definition parse_insert (ts : list token) : option stmt :=
  match ts with
  | TWord into :: TWord t :: TLParen :: rest =>
      if kw "INTO" into && is_name t then
        match parse_names rest with
        | Some (cols, TRParen :: TWord v :: TLParen :: rest') =>
            if kw "VALUES" v then
              match parse_qmarks rest' with
              | Some (n, [TRParen]) => Some (SInsert t cols n)
              | _ => None
              end
            else None
        | _ => None
        end
      else None
  | _ => None
  end.

Definition parse_from (proj : option (list string)) (ts : list token)
  : option stmt :=
  match ts with
  | TWord from :: TWord t :: rest =>
      if kw "FROM" from && is_name t then
        option_map (fun '(cs, os, l) => SSelect proj t cs os l)
                   (parse_select_tail rest)
      else None
  | _ => None
  end.

Definition parse_select (ts : list token) : option stmt :=
  match ts with
  | TStar :: rest => parse_from None rest
  | _ =>
      match parse_names ts with
      | Some (ns, rest) => parse_from (Some ns) rest
      | None => None
      end
  end.

(** [[WHERE conds]] and the end of the statement *)
Definition parse_where (ts : list token) : option (list string) :=
  match ts with
  | [] => Some []
  | TWord w :: rest =>
      if kw "WHERE" w then
        match parse_eqs is_and rest with
        | Some (cs, []) => Some cs
        | _ => None
        end
      else None
  | _ => None
  end.

Definition parse_update (ts : list token) : option stmt :=
  match ts with
  | TWord t :: TWord set :: rest =>
      if is_name t && kw "SET" set then
        match parse_eqs is_comma rest with
        | Some (sets, rest') => option_map (SUpdate t sets) (parse_where rest')
        | None => None
        end
      else None
  | _ => None
  end.

Definition parse_delete (ts : list token) : option stmt :=
  match ts with
  | TWord from :: TWord t :: rest =>
      if kw "FROM" from && is_name t
      then option_map (SDelete t) (parse_where rest)
      else None
  | _ => None
  end.

Definition parse_sql (ts : list token) : option stmt :=
  match ts with
  | TWord w :: rest =>
      if kw "INSERT" w then parse_insert rest
      else if kw "SELECT" w then parse_select rest
      else if kw "UPDATE" w then parse_update rest
      else if kw "DELETE" w then parse_delete rest
      else None
  | _ => None
  end.

(** The statement the driver reads in a text.  *)
Definition read_statement (sql : string) : option stmt :=
  parse_sql (lex (strip_comments sql)).

Definition stmt_nparams (st : stmt) : nat :=
  match st with
  | SInsert _ _ n => n
  | SSelect _ _ cs _ _ => length cs
  | SUpdate _ sets cs => length sets + length cs
  | SDelete _ cs => length cs
  end.

(** ** The stored database

    Every table of the examples is declared with
    [id INTEGER PRIMARY KEY AUTOINCREMENT] as its first column, so the model
    keeps the id apart: a stored row is its id and the values of the other
    columns, in declaration order.  *)

Inductive affinity : Type :=
| AffInteger | AffText | AffReal | AffNumeric | AffBlob.

Inductive default : Type :=
| DfltNull
| DfltValue (v : value)
| DfltCurrentTimestamp.

Record column : Type := mk_column {
  col_name : string;
  col_aff : affinity;
  col_notnull : bool;
  col_unique : bool;
  col_default : default
}.

Definition row : Type := (Z * list value)%type.

Record table : Type := mk_table {
  tbl_name : string;
  tbl_cols : list column;
  tbl_rows : list row;
  tbl_seq : Z   (* largest id ever given out (AUTOINCREMENT) *)
}.

Record index : Type := mk_index {
  idx_name : string;
  idx_table : string;
  idx_column : string
}.

Record database : Type := mk_database {
  db_tables : list table;
  db_indexes : list index
}.

Definition empty_database : database := mk_database [] [].

(** The part of a database that DDL fixes: names and columns of the tables,
    and the indexes.  *)
Definition schema_of (db : database)
  : list (string * list column) * list index :=
  (map (fun t => (tbl_name t, tbl_cols t)) (db_tables db), db_indexes db).

Fixpoint find_table_in (ts : list table) (n : string) : option table :=
  match ts with
  | [] => None
  | t :: ts' => if name_eqb (tbl_name t) n then Some t else find_table_in ts' n
  end.

Definition find_table (db : database) (n : string) : option table :=
  find_table_in (db_tables db) n.

Fixpoint put_table_in (t' : table) (ts : list table) : list table :=
  match ts with
  | [] => []
  | t :: ts' =>
      if name_eqb (tbl_name t) (tbl_name t') then t' :: ts'
      else t :: put_table_in t' ts'
  end.

Definition put_table (t' : table) (db : database) : database :=
  mk_database (put_table_in t' (db_tables db)) (db_indexes db).

Definition set_rows (t : table) (rows : list row) (seq : Z) : table :=
  mk_table (tbl_name t) (tbl_cols t) rows seq.

(** *** Column references *)

Inductive colref : Type :=
| CRowid
| CCol (i : nat).

Definition colref_eqb (a b : colref) : bool :=
  match a, b with
  | CRowid, CRowid => true
  | CCol i, CCol j => Nat.eqb i j
  | _, _ => false
  end.

Fixpoint find_col (cols : list column) (n : string) (i : nat) : option nat :=
  match cols with
  | [] => None
  | c :: cs => if name_eqb (col_name c) n then Some i else find_col cs n (S i)
  end.

Definition is_rowid_alias (n : string) : bool :=
  existsb (name_eqb n) ["rowid"; "oid"; "_rowid_"].

Definition resolve (t : table) (n : string) : option colref :=
  if name_eqb n "id" then Some CRowid
  else match find_col (tbl_cols t) n 0 with
       | Some i => Some (CCol i)
       | None => if is_rowid_alias n then Some CRowid else None
       end.

Fixpoint resolve_all (t : table) (ns : list string) : option (list colref) :=
  match ns with
  | [] => Some []
  | n :: ns' =>
      match resolve t n, resolve_all t ns' with
      | Some c, Some cs => Some (c :: cs)
      | _, _ => None
      end
  end.

Definition get_col (r : row) (c : colref) : value :=
  match c with
  | CRowid => VInt (fst r)
  | CCol i => nth i (snd r) VNull
  end.

Definition colref_aff (t : table) (c : colref) : affinity :=
  match c with
  | CRowid => AffInteger
  | CCol i => match nth_error (tbl_cols t) i with
              | Some col => col_aff col
              | None => AffBlob
              end
  end.

Fixpoint lookup_ref (given : list (colref * value)) (c : colref)
  : option value :=
  match given with
  | [] => None
  | (c', v) :: g => if colref_eqb c' c then Some v else lookup_ref g c
  end.

(** The row as the driver hands it back with [row_factory = sqlite3.Row]:
    addressable by column name.  *)
Definition row_mapping (t : table) (r : row) : dict :=
  ("id", VInt (fst r)) :: combine (map col_name (tbl_cols t)) (snd r).

(** [row[name]] on such a row; the lookup ignores case.  *)
Fixpoint row_get (d : dict) (n : string) : option value :=
  match d with
  | [] => None
  | (k, v) :: d' => if name_eqb k n then Some v else row_get d' n
  end.

(** *** Comparison of stored values *)

Fixpoint bytes_eqb (a b : list byte) : bool :=
  match a, b with
  | [], [] => true
  | x :: a', y :: b' => Byte.eqb x y && bytes_eqb a' b'
  | _, _ => false
  end.

Fixpoint bytes_compare (a b : list byte) : comparison :=
  match a, b with
  | [], [] => Eq
  | [], _ :: _ => Lt
  | _ :: _, [] => Gt
  | x :: a', y :: b' =>
      match N.compare (Byte.to_N x) (Byte.to_N y) with
      | Eq => bytes_compare a' b'
      | c => c
      end
  end.

(** [a = b] in a WHERE clause or a UNIQUE index: NULL equals nothing,
    integers and reals compare by value, other classes only with themselves. *)
Definition sql_eqb (a b : value) : bool :=
  match a, b with
  | VInt x, VInt y => (x =? y)%Z
  | VInt x, VReal q => Qeq_bool (inject_Z x) q
  | VReal q, VInt x => Qeq_bool q (inject_Z x)
  | VReal p, VReal q => Qeq_bool p q
  | VText s, VText t => String.eqb s t
  | VBlob s, VBlob t => bytes_eqb s t
  | _, _ => false
  end.

Definition class_rank (v : value) : Z :=
  match v with
  | VNull => 0
  | VInt _ | VReal _ => 1
  | VText _ => 2
  | VBlob _ => 3
  end.

Definition as_Q (v : value) : Q :=
  match v with
  | VInt z => inject_Z z
  | VReal q => q
  | _ => inject_Z 0
  end.

(** The order ORDER BY sorts in: NULL, then numbers, then text, then blobs. *)
Definition value_compare (a b : value) : comparison :=
  match a, b with
  | VText s, VText t => String.compare s t
  | VBlob s, VBlob t => bytes_compare s t
  | _, _ =>
      match Z.compare (class_rank a) (class_rank b) with
      | Eq => if (class_rank a =? 1)%Z then Qcompare (as_Q a) (as_Q b) else Eq
      | c => c
      end
  end.

Definition is_null (v : value) : bool :=
  match v with VNull => true | _ => false end.

(** *** 64-bit integers *)

Definition int64_min : Z := -9223372036854775808.
Definition int64_max : Z := 9223372036854775807.
Definition in_int64 (z : Z) : bool :=
  (int64_min <=? z)%Z && (z <=? int64_max)%Z.

(** A Python [int] outside the 64-bit range cannot be bound. *)
Definition bindable (v : value) : bool :=
  match v with
  | VInt z => in_int64 z
  | _ => true
  end.

(** ** The driver

    What the driver does with text that looks like a number, how it prints a
    real, and what its clock reads are left open: the development is
    parametric in them.  *)

Inductive num : Type :=
| NInt (z : Z)
| NReal (q : Q).

Record driver : Type := mk_driver {
  current_timestamp : string;         (* CURRENT_TIMESTAMP *)
  real_to_text : Q -> string;         (* a REAL stored in a TEXT column *)
  text_to_num : string -> option num; (* text that is a well-formed number *)
  text_as_num : string -> num         (* text used in arithmetic *)
}.

(** What the helpers read off the cursor after a statement.  *)
Record cursor : Type := mk_cursor {
  fetchall : list dict;
  lastrowid : value;
  rowcount : Z
}.

Section Driver.

Variable drv : driver.

(** *** Column affinity: the conversion applied to a value on its way into a
    column *)

Definition Q_is_int (q : Q) : bool := (Qnum q mod Zpos (Qden q) =? 0)%Z.
Definition Q_to_int (q : Q) : Z := (Qnum q / Zpos (Qden q))%Z.

Definition demote_real (q : Q) : value :=
  if Q_is_int q && in_int64 (Q_to_int q) then VInt (Q_to_int q) else VReal q.

Definition value_of_num (n : num) : value :=
  match n with
  | NInt z => if in_int64 z then VInt z else VReal (inject_Z z)
  | NReal q => VReal q
  end.

Definition numeric_affinity (v : value) : value :=
  match v with
  | VReal q => demote_real q
  | VText s =>
      match text_to_num drv s with
      | Some n => match value_of_num n with
                  | VReal q => demote_real q
                  | v' => v'
                  end
      | None => VText s
      end
  | _ => v
  end.

Definition real_affinity (v : value) : value :=
  match v with
  | VInt z => VReal (inject_Z z)
  | VText s =>
      match text_to_num drv s with
      | Some (NInt z) => VReal (inject_Z z)
      | Some (NReal q) => VReal q
      | None => VText s
      end
  | _ => v
  end.

Definition text_affinity (v : value) : value :=
  match v with
  | VInt z => VText (str_of_int z)
  | VReal q => VText (real_to_text drv q)
  | _ => v
  end.

Definition apply_affinity (a : affinity) (v : value) : value :=
  match a with
  | AffInteger | AffNumeric => numeric_affinity v
  | AffReal => real_affinity v
  | AffText => text_affinity v
  | AffBlob => v
  end.

(** The conversion applied to a parameter compared with a column.  *)
Definition compare_affinity (a : affinity) (v : value) : value :=
  match a with
  | AffText => text_affinity v
  | AffBlob => v
  | _ => numeric_affinity v
  end.

Definition row_matches (t : table) (conds : list (colref * value)) (r : row)
  : bool :=
  forallb (fun cv => sql_eqb (get_col r (fst cv))
                             (compare_affinity (colref_aff t (fst cv)) (snd cv)))
          conds.

(** *** Constraints *)

Definition default_value (c : column) : value :=
  match col_default c with
  | DfltNull => VNull
  | DfltValue v => v
  | DfltCurrentTimestamp => VText (current_timestamp drv)
  end.

Fixpoint notnull_ok (cols : list column) (vals : list value) : bool :=
  match cols, vals with
  | c :: cs, v :: vs => negb (col_notnull c && is_null v) && notnull_ok cs vs
  | _, _ => true
  end.

Fixpoint unique_ok (cols : list column) (i : nat) (vals : list value)
                   (others : list row) : bool :=
  match cols, vals with
  | c :: cs, v :: vs =>
      (negb (col_unique c) || is_null v
       || negb (existsb (fun r => sql_eqb (nth i (snd r) VNull) v) others))
      && unique_ok cs (S i) vs others
  | _, _ => true
  end.

Definition rowid_free (id : Z) (others : list row) : bool :=
  negb (existsb (fun r => (fst r =? id)%Z) others).

Definition constraints_ok (t : table) (r : row) (others : list row) : bool :=
  notnull_ok (tbl_cols t) (snd r) && rowid_free (fst r) others
  && unique_ok (tbl_cols t) 0 (snd r) others.

(** The value an id column accepts: an integer, after conversion.  *)
Definition must_be_int (v : value) : result Z :=
  match numeric_affinity v with
  | VInt z => Ok z
  | _ => Raise IntegrityError
  end.

(** *** INSERT *)

Definition max_rowid (rows : list row) : Z :=
  fold_right (fun r m => Z.max (fst r) m) 0 rows.

Definition next_rowid (t : table) : Z :=
  Z.max (tbl_seq t) (max_rowid (tbl_rows t)) + 1.

Fixpoint insert_values (cols : list column) (i : nat)
                       (given : list (colref * value)) : list value :=
  match cols with
  | [] => []
  | c :: cs =>
      apply_affinity (col_aff c)
        (match lookup_ref given (CCol i) with
         | Some v => v
         | None => default_value c
         end)
      :: insert_values cs (S i) given
  end.

Definition step_insert (db : database) (t : table)
                       (given : list (colref * value))
  : result (database * cursor) :=
  id <- match lookup_ref given CRowid with
        | None | Some VNull =>
            check (next_rowid t <=? int64_max)%Z else OperationalError ;;
            Ok (next_rowid t)
        | Some v => must_be_int v
        end ;;
  let r := (id, insert_values (tbl_cols t) 0 given) in
  check (constraints_ok t r (tbl_rows t)) else IntegrityError ;;
  Ok (put_table (set_rows t (tbl_rows t ++ [r]) (Z.max (tbl_seq t) id)) db,
      mk_cursor [] (VInt id) 1).

(** *** SELECT *)

Fixpoint row_leb (terms : list (colref * bool)) (a b : row) : bool :=
  match terms with
  | [] => true
  | (c, desc) :: ts =>
      match value_compare (get_col a c) (get_col b c) with
      | Eq => row_leb ts a b
      | Lt => negb desc
      | Gt => desc
      end
  end.

Fixpoint insert_sorted (leb : row -> row -> bool) (r : row) (l : list row)
  : list row :=
  match l with
  | [] => [r]
  | x :: l' => if leb r x then r :: l else x :: insert_sorted leb r l'
  end.

Definition sort_rows (leb : row -> row -> bool) (l : list row) : list row :=
  fold_right (insert_sorted leb) [] l.

(** Without ORDER BY the rows come in the order of their ids; ORDER BY
    keeps that order among equals.  *)
Definition by_rowid (a b : row) : bool := (fst a <=? fst b)%Z.

Definition apply_limit (limit : option Z) (l : list row) : list row :=
  match limit with
  | None => l
  | Some n => if (n <? 0)%Z then l else firstn (Z.to_nat n) l
  end.

Definition project (t : table) (proj : option (list (string * colref)))
                   (r : row) : dict :=
  match proj with
  | None => row_mapping t r
  | Some cs => map (fun nc => (fst nc, get_col r (snd nc))) cs
  end.

Definition step_select (db : database) (t : table)
    (proj : option (list (string * colref)))
    (conds : list (colref * value)) (order : list (colref * bool))
    (limit : option Z) : result (database * cursor) :=
  check (match limit with Some n => in_int64 n | None => true end)
    else IntegrityError ;;
  let rows := sort_rows by_rowid (filter (row_matches t conds) (tbl_rows t)) in
  let rows := apply_limit limit (sort_rows (row_leb order) rows) in
  Ok (db, mk_cursor (map (project t proj) rows) VNull (-1)).

(** *** UPDATE *)

Fixpoint update_values (cols : list column) (i : nat)
    (sets : list (colref * value)) (old : list value) : list value :=
  match cols, old with
  | c :: cs, v :: vs =>
      match lookup_ref sets (CCol i) with
      | Some v' => apply_affinity (col_aff c) v'
      | None => v
      end :: update_values cs (S i) sets vs
  | _, _ => old
  end.

Definition assign_row (t : table) (sets : list (colref * value)) (r : row)
  : result row :=
  id <- match lookup_ref sets CRowid with
        | None => Ok (fst r)
        | Some v => must_be_int v
        end ;;
  Ok (id, update_values (tbl_cols t) 0 sets (snd r)).

(** Rows are visited in storage order; each changed row is checked against
    the table as it stands at that moment, and a violation undoes the whole
    statement.  *)
Fixpoint update_rows (t : table) (sets conds : list (colref * value))
                     (done todo : list row) : result (list row * Z) :=
  match todo with
  | [] => Ok (done, 0%Z)
  | r :: rest =>
      if row_matches t conds r then
        r' <- assign_row t sets r ;;
        check (constraints_ok t r' (done ++ rest)) else IntegrityError ;;
        out <- update_rows t sets conds (done ++ [r']) rest ;;
        Ok (fst out, (snd out + 1)%Z)
      else update_rows t sets conds (done ++ [r]) rest
  end.

Definition step_update (db : database) (t : table)
    (sets conds : list (colref * value)) : result (database * cursor) :=
  out <- update_rows t sets conds [] (tbl_rows t) ;;
  Ok (put_table (set_rows t (fst out) (tbl_seq t)) db,
      mk_cursor [] VNull (snd out)).

(** *** DELETE *)

Definition step_delete (db : database) (t : table)
    (conds : list (colref * value)) : result (database * cursor) :=
  let kept := filter (fun r => negb (row_matches t conds r)) (tbl_rows t) in
  Ok (put_table (set_rows t kept (tbl_seq t)) db,
      mk_cursor [] VNull
        (Z.of_nat (length (tbl_rows t)) - Z.of_nat (length kept))).

(** *** [cursor.execute(sql, parameters)]

    The statement is compiled first (syntax, then table and column names),
    then the parameters are bound, then it runs.  A statement that fails
    leaves the database as it was.  *)

Definition resolve_order (t : table) (order : list (string * bool))
  : option (list (colref * bool)) :=
  option_map (fun cs => combine cs (map snd order))
             (resolve_all t (map fst order)).

Definition bind_parameters (n : nat) (params : list value) : result unit :=
  check (Nat.eqb n (length params)) else ProgrammingError ;;
  check (forallb bindable params) else OverflowError ;;
  Ok tt.

Definition cursor_execute (db : database) (sql : string) (params : list value)
  : result (database * cursor) :=
  st <- of_option OperationalError (read_statement sql) ;;
  match st with
  | SInsert tn cols nvals =>
      t <- of_option OperationalError (find_table db tn) ;;
      refs <- of_option OperationalError (resolve_all t cols) ;;
      check (Nat.eqb (length cols) nvals) else OperationalError ;;
      _ <- bind_parameters nvals params ;;
      step_insert db t (combine refs params)
  | SSelect proj tn conds order limit =>
      t <- of_option OperationalError (find_table db tn) ;;
      pr <- match proj with
            | None => Ok None
            | Some ns =>
                cs <- of_option OperationalError (resolve_all t ns) ;;
                Ok (Some (combine ns cs))
            end ;;
      crefs <- of_option OperationalError (resolve_all t conds) ;;
      orefs <- of_option OperationalError (resolve_order t order) ;;
      _ <- bind_parameters (length conds) params ;;
      step_select db t pr (combine crefs params) orefs limit
  | SUpdate tn sets conds =>
      t <- of_option OperationalError (find_table db tn) ;;
      srefs <- of_option OperationalError (resolve_all t sets) ;;
      crefs <- of_option OperationalError (resolve_all t conds) ;;
      _ <- bind_parameters (length sets + length conds) params ;;
      step_update db t (combine srefs (firstn (length sets) params))
                       (combine crefs (skipn (length sets) params))
  | SDelete tn conds =>
      t <- of_option OperationalError (find_table db tn) ;;
      crefs <- of_option OperationalError (resolve_all t conds) ;;
      _ <- bind_parameters (length conds) params ;;
      step_delete db t (combine crefs params)
  end.

End Driver.

(** ** DDL

    The schema statements of the examples are constant texts; they are
    transcribed as data.  Both are the IF NOT EXISTS forms.  *)

Inductive ddl : Type :=
| CreateTable (n : string) (cols : list column)
| CreateIndex (n t c : string).

Definition has_table (db : database) (n : string) : bool :=
  existsb (fun t => name_eqb (tbl_name t) n) (db_tables db).

Definition has_index (db : database) (n : string) : bool :=
  existsb (fun i => name_eqb (idx_name i) n) (db_indexes db).

Definition exec_ddl (s : ddl) (db : database) : result database :=
  match s with
  | CreateTable n cols =>
      if has_table db n then Ok db
      else
        check (negb (has_index db n)) else OperationalError ;;
        Ok (mk_database (db_tables db ++ [mk_table n cols [] 0])
                        (db_indexes db))
  | CreateIndex n t c =>
      tbl <- of_option OperationalError (find_table db t) ;;
      check (negb (has_table db n)) else OperationalError ;;
      if has_index db n then Ok db
      else
        _ <- of_option OperationalError (resolve tbl c) ;;
        Ok (mk_database (db_tables db) (db_indexes db ++ [mk_index n t c]))
  end.

(** The statements of a [create_tables] body run in order; each one takes
    effect at once, and the first failure ends the [try] block.  *)
Fixpoint run_ddl (steps : list ddl) (db : database) : database :=
  match steps with
  | [] => db
  | s :: rest =>
      match exec_ddl s db with
      | Ok db' => run_ddl rest db'
      | Raise _ => db
      end
  end.

Definition col (n : string) (a : affinity) : column :=
  mk_column n a false false DfltNull.
Definition not_null (c : column) : column :=
  mk_column (col_name c) (col_aff c) true (col_unique c) (col_default c).
Definition unique (c : column) : column :=
  mk_column (col_name c) (col_aff c) (col_notnull c) true (col_default c).
Definition with_default (d : default) (c : column) : column :=
  mk_column (col_name c) (col_aff c) (col_notnull c) (col_unique c) d.

(** Python truthiness, as used by [if parameters:], [if conditions:],
    [if order_by:] and [if limit:].  *)
Definition truthy_list {A} (l : list A) : bool :=
  match l with [] => false | _ => true end.
Definition truthy_dict (d : option dict) : bool :=
  match d with Some (_ :: _) => true | _ => false end.
Definition truthy_str (s : option string) : bool :=
  match s with Some (String _ _) => true | _ => false end.
Definition truthy_int (n : option Z) : bool :=
  match n with Some z => negb (z =? 0)%Z | None => false end.

Definition dict_of (d : option dict) : dict :=
  match d with Some c => c | None => [] end.
Definition str_of (s : option string) : string :=
  match s with Some c => c | None => "" end.
Definition int_of (n : option Z) : Z :=
  match n with Some z => z | None => 0%Z end.

(** ** [DatabaseManager] of [basic_database.py]

    [crud_operations.py] repeats [execute_query], [insert_record],
    [update_record] and [delete_record] word for word (without the logging),
    so this module is the embedding of both.  The connection is the pair of
    the driver and the database it holds; [commit] has nothing to do in a
    model with one connection.  *)

Module DatabaseManager.

Definition users_columns : list column :=
  [ unique (not_null (col "username" AffText));
    unique (not_null (col "email" AffText));
    not_null (col "full_name" AffText);
    with_default (DfltValue (VText "user")) (col "role" AffText);
    with_default (DfltValue (VInt 1)) (col "is_active" AffNumeric);
    with_default DfltCurrentTimestamp (col "created_date" AffNumeric);
    col "last_login" AffNumeric ].

Definition products_columns : list column :=
  [ not_null (col "name" AffText);
    col "description" AffText;
    not_null (col "price" AffReal);
    col "category" AffText;
    with_default (DfltValue (VInt 0)) (col "stock_quantity" AffInteger);
    with_default DfltCurrentTimestamp (col "created_date" AffNumeric);
    with_default DfltCurrentTimestamp (col "updated_date" AffNumeric) ].

Definition orders_columns : list column :=
  [ col "user_id" AffInteger;
    col "product_id" AffInteger;
    not_null (col "quantity" AffInteger);
    not_null (col "total_price" AffReal);
    with_default DfltCurrentTimestamp (col "order_date" AffNumeric);
    with_default (DfltValue (VText "pending")) (col "status" AffText) ].

Definition schema : list ddl :=
  [ CreateTable "users" users_columns;
    CreateTable "products" products_columns;
    CreateTable "orders" orders_columns;
    CreateIndex "idx_users_email" "users" "email";
    CreateIndex "idx_products_category" "products" "category";
    CreateIndex "idx_orders_user_id" "orders" "user_id";
    CreateIndex "idx_orders_status" "orders" "status" ].

Definition create_tables (db : database) : database := run_ddl schema db.

Definition execute_query (drv : driver) (db : database) (query : string)
                         (parameters : list value)
  : result (database * cursor) :=
  if truthy_list parameters then cursor_execute drv db query parameters
  else cursor_execute drv db query [].

Definition insert_query (table : string) (data : dict) : string :=
  let columns := join ", " (keys data) in
  let placeholders := join ", " (map (fun _ => "?") data) in
  ("INSERT INTO " ++ table ++ " (" ++ columns ++ ") VALUES ("
     ++ placeholders ++ ")")%string.

Definition insert_record (drv : driver) (db : database) (table : string)
                         (data : dict) : result value * database :=
  let query := insert_query table data in
  match execute_query drv db query (values data) with
  | Ok (db', cursor) => (Ok (lastrowid cursor), db')
  | Raise e => (Raise e, db)
  end.

Definition eq_placeholder (k : string) : string := (k ++ " = ?")%string.

Definition select_query (table : string) (conditions : option dict)
    (order_by : option string) (limit : option Z) : string :=
  let query := ("SELECT * FROM " ++ table)%string in
  let query :=
    if truthy_dict conditions then
      let where_clause :=
        join " AND " (map eq_placeholder (keys (dict_of conditions))) in
      (query ++ " WHERE " ++ where_clause)%string
    else query in
  let query :=
    if truthy_str order_by then (query ++ " ORDER BY " ++ str_of order_by)%string
    else query in
  if truthy_int limit then (query ++ " LIMIT " ++ str_of_int (int_of limit))%string
  else query.

Definition select_parameters (conditions : option dict) : list value :=
  if truthy_dict conditions then [] ++ values (dict_of conditions) else [].

Definition select_records (drv : driver) (db : database) (table : string)
    (conditions : option dict) (order_by : option string) (limit : option Z)
  : result (list dict) :=
  let query := select_query table conditions order_by limit in
  match execute_query drv db query (select_parameters conditions) with
  | Ok (_, cursor) => Ok (fetchall cursor)
  | Raise e => Raise e
  end.

Definition update_query (table : string) (data conditions : dict) : string :=
  let set_clause := join ", " (map eq_placeholder (keys data)) in
  let where_clause := join " AND " (map eq_placeholder (keys conditions)) in
  ("UPDATE " ++ table ++ " SET " ++ set_clause ++ " WHERE " ++ where_clause)%string.

Definition update_record (drv : driver) (db : database) (table : string)
    (data conditions : dict) : result Z * database :=
  let query := update_query table data conditions in
  let parameters := values data ++ values conditions in
  match execute_query drv db query parameters with
  | Ok (db', cursor) => (Ok (rowcount cursor), db')
  | Raise e => (Raise e, db)
  end.

Definition delete_query (table : string) (conditions : dict) : string :=
  let where_clause := join " AND " (map eq_placeholder (keys conditions)) in
  ("DELETE FROM " ++ table ++ " WHERE " ++ where_clause)%string.

Definition delete_record (drv : driver) (db : database) (table : string)
    (conditions : dict) : result Z * database :=
  let query := delete_query table conditions in
  match execute_query drv db query (values conditions) with
  | Ok (db', cursor) => (Ok (rowcount cursor), db')
  | Raise e => (Raise e, db)
  end.

End DatabaseManager.

(** ** Arithmetic and aggregates of the report queries *)

Definition num_of_value (drv : driver) (v : value) : option num :=
  match v with
  | VNull => None
  | VInt z => Some (NInt z)
  | VReal q => Some (NReal q)
  | VText s => Some (text_as_num drv s)
  | VBlob b => Some (text_as_num drv (string_of_list_byte b))
  end.

Definition num_Q (n : num) : Q :=
  match n with
  | NInt z => inject_Z z
  | NReal q => q
  end.

(** [a * b] in SQL: NULL if either side is; an integer product that leaves
    the 64-bit range becomes a real.  *)
Definition sql_mul (drv : driver) (a b : value) : value :=
  match num_of_value drv a, num_of_value drv b with
  | Some (NInt x), Some (NInt y) =>
      if in_int64 (x * y) then VInt (x * y) else VReal (inject_Z (x * y))
  | Some x, Some y => VReal (Qred (Qmult (num_Q x) (num_Q y)))
  | _, _ => VNull
  end.

Record sum_state : Type := mk_sum {
  sum_int : Z;
  sum_real : Q;
  sum_approx : bool;
  sum_overflow : bool;
  sum_count : Z
}.

Definition sum_step (drv : driver) (st : sum_state) (v : value) : sum_state :=
  match v, num_of_value drv v with
  | _, None => st
  | VInt x, _ =>
      let r := Qred (Qplus (sum_real st) (inject_Z x)) in
      if sum_approx st || sum_overflow st then
        mk_sum (sum_int st) r (sum_approx st) (sum_overflow st)
               (sum_count st + 1)
      else if in_int64 (sum_int st + x) then
        mk_sum (sum_int st + x) r false false (sum_count st + 1)
      else mk_sum (sum_int st) r true true (sum_count st + 1)
  | _, Some n =>
      mk_sum (sum_int st) (Qred (Qplus (sum_real st) (num_Q n))) true
             (sum_overflow st) (sum_count st + 1)
  end.

Definition sum_run (drv : driver) (vs : list value) : sum_state :=
  fold_left (sum_step drv) vs (mk_sum 0 (inject_Z 0) false false 0).

(** [SUM(x)]: NULL when there is no non-NULL input.  *)
Definition sql_sum (drv : driver) (vs : list value) : result value :=
  let st := sum_run drv vs in
  if (sum_count st =? 0)%Z then Ok VNull
  else if sum_overflow st then Raise OperationalError
  else if sum_approx st then Ok (VReal (sum_real st))
  else Ok (VInt (sum_int st)).

(** [AVG(x)]: NULL when there is no non-NULL input.  *)
Definition sql_avg (drv : driver) (vs : list value) : value :=
  let st := sum_run drv vs in
  if (sum_count st =? 0)%Z then VNull
  else VReal (Qred (Qdiv (sum_real st) (inject_Z (sum_count st)))).

Fixpoint distinct_values (vs : list value) (seen : list value) : list value :=
  match vs with
  | [] => seen
  | v :: vs' =>
      if is_null v || existsb (sql_eqb v) seen then distinct_values vs' seen
      else distinct_values vs' (seen ++ [v])
  end.

(** [COUNT(DISTINCT x)] *)
Definition sql_count_distinct (vs : list value) : Z :=
  Z.of_nat (length (distinct_values vs [])).

(** [COUNT( * )] *)
Definition sql_count (t : table) : Z := Z.of_nat (length (tbl_rows t)).

(** ** Python expressions on fetched values *)

Fixpoint repeat_string (n : nat) (s : string) : string :=
  match n with
  | O => ""
  | S n' => (s ++ repeat_string n' s)%string
  end.

(** [a * n] for an [int] [n] *)
Definition py_mul_int (a : value) (n : Z) : result value :=
  match a with
  | VNull => Raise TypeError
  | VInt x => Ok (VInt (x * n))
  | VReal q => Ok (VReal (Qred (Qmult q (inject_Z n))))
  | VText s => Ok (VText (repeat_string (Z.to_nat n) s))
  | VBlob b => Ok (VBlob (concat (repeat b (Z.to_nat n))))
  end.

Definition py_truthy (v : value) : bool :=
  match v with
  | VNull => false
  | VInt z => negb (z =? 0)%Z
  | VReal q => negb (Qeq_bool q (inject_Z 0))
  | VText s => negb (String.eqb s "")
  | VBlob b => truthy_list b
  end.

(** [a or 0] *)
Definition or_zero (a : value) : value := if py_truthy a then a else VInt 0.

(** [d.get(k, 0)] on a plain dict *)
Fixpoint dict_get_or_zero (d : dict) (k : string) : value :=
  match d with
  | [] => VInt 0
  | (k', v) :: d' => if String.eqb k' k then v else dict_get_or_zero d' k
  end.

(** ** [DatabaseDashboard] of [database_dashboard.py] *)

Module DatabaseDashboard.

Definition users_columns : list column :=
  [ not_null (col "name" AffText);
    unique (not_null (col "email" AffText));
    with_default (DfltValue (VText "user")) (col "role" AffText);
    with_default DfltCurrentTimestamp (col "created_date" AffNumeric) ].

Definition products_columns : list column :=
  [ not_null (col "name" AffText);
    not_null (col "category" AffText);
    not_null (col "price" AffReal);
    with_default (DfltValue (VInt 0)) (col "stock" AffInteger);
    with_default DfltCurrentTimestamp (col "created_date" AffNumeric) ].

Definition orders_columns : list column :=
  [ col "user_id" AffInteger;
    col "product_id" AffInteger;
    not_null (col "quantity" AffInteger);
    not_null (col "total_price" AffReal);
    with_default DfltCurrentTimestamp (col "order_date" AffNumeric) ].

Definition analytics_columns : list column :=
  [ not_null (col "metric_name" AffText);
    not_null (col "metric_value" AffReal);
    with_default DfltCurrentTimestamp (col "date_recorded" AffNumeric) ].

Definition schema : list ddl :=
  [ CreateTable "users" users_columns;
    CreateTable "products" products_columns;
    CreateTable "orders" orders_columns;
    CreateTable "analytics" analytics_columns ].

Definition create_tables (db : database) : database := run_ddl schema db.

(** One turn of the sample-order loop of [load_sample_data]: read the
    product's price, multiply, store the order with the product as total.
    [cursor.fetchone()] of an empty result is [None], and subscripting it is a
    [TypeError].  *)
Definition insert_sample_order (drv : driver) (db : database)
    (user_id product_id quantity : Z) (order_date : string)
  : result database :=
  sel <- cursor_execute drv db "SELECT price FROM products WHERE id = ?"
                        [VInt product_id] ;;
  match fetchall (snd sel) with
  | [] => Raise TypeError
  | fetched :: _ =>
      price <- of_option TypeError (row_get fetched "price") ;;
      total_price <- py_mul_int price quantity ;;
      ins <- cursor_execute drv db
        "INSERT INTO orders (user_id, product_id, quantity, total_price, order_date) VALUES (?, ?, ?, ?, ?)"
        [VInt user_id; VInt product_id; VInt quantity; total_price;
         VText order_date] ;;
      Ok (fst ins)
  end.

Definition column_values (t : table) (c : colref) : list value :=
  map (fun r => get_col r c) (tbl_rows t).

(** [refresh_overview_metrics]: the four numbers put on the labels, or
    [None] when the [except sqlite3.Error] branch shows the error dialog.  *)
Definition refresh_overview_metrics (drv : driver) (db : database)
  : option (Z * Z * Z * value) :=
  match find_table db "users", find_table db "products",
        find_table db "orders" with
  | Some users, Some products, Some orders =>
      let total_users := sql_count users in
      let total_products := sql_count products in
      let total_orders := sql_count orders in
      match resolve orders "total_price" with
      | Some total_price =>
          match sql_sum drv (column_values orders total_price) with
          | Ok s => Some (total_users, total_products, total_orders, or_zero s)
          | Raise _ => None
          end
      | None => None
      end
  | _, _, _ => None
  end.

(** The join of [refresh_orders_table] and of the recent-orders part of
    [refresh_analytics]:

      FROM orders o JOIN users u ON o.user_id = u.id
                    JOIN products p ON o.product_id = p.id
      ORDER BY o.order_date DESC                                          *)
Record joined : Type := mk_joined {
  j_order : row;
  j_user : row;
  j_product : row
}.

Definition join_orders (orders users products : table)
                       (user_id product_id : colref) : list joined :=
  flat_map (fun o =>
    flat_map (fun u =>
      if sql_eqb (get_col o user_id) (VInt (fst u)) then
        flat_map (fun p =>
          if sql_eqb (get_col o product_id) (VInt (fst p))
          then [mk_joined o u p] else [])
          (tbl_rows products)
      else [])
      (tbl_rows users))
    (tbl_rows orders).

Fixpoint insert_joined (leb : joined -> joined -> bool) (j : joined)
                       (l : list joined) : list joined :=
  match l with
  | [] => [j]
  | x :: l' => if leb j x then j :: l else x :: insert_joined leb j l'
  end.

Definition order_date_desc (order_date : colref) (a b : joined) : bool :=
  match value_compare (get_col (j_order a) order_date)
                      (get_col (j_order b) order_date) with
  | Lt => false
  | _ => true
  end.

Definition joined_orders (db : database) : option (list joined * table) :=
  match find_table db "orders", find_table db "users",
        find_table db "products" with
  | Some orders, Some users, Some products =>
      match resolve orders "user_id", resolve orders "product_id",
            resolve orders "order_date", resolve users "name",
            resolve products "name", resolve orders "quantity",
            resolve orders "total_price" with
      | Some user_id, Some product_id, Some order_date,
        Some _, Some _, Some _, Some _ =>
          Some (fold_right (insert_joined (order_date_desc order_date)) []
                  (join_orders orders users products user_id product_id),
                orders)
      | _, _, _, _, _, _, _ => None
      end
  | _, _, _ => None
  end.

Definition named (t : option table) (r : row) (n : string) : value :=
  match t with
  | Some t' => match resolve t' n with
               | Some c => get_col r c
               | None => VNull
               end
  | None => VNull
  end.

(** [refresh_orders_table]: the rows fetched for the orders tree, or [None]
    when the error dialog is shown.  *)
Definition refresh_orders_table (db : database) : option (list dict) :=
  option_map (fun jo =>
    map (fun j =>
      [ ("id", VInt (fst (j_order j)));
        ("user_name", named (find_table db "users") (j_user j) "name");
        ("product_name", named (find_table db "products") (j_product j) "name");
        ("quantity", named (Some (snd jo)) (j_order j) "quantity");
        ("total_price", named (Some (snd jo)) (j_order j) "total_price");
        ("order_date", named (Some (snd jo)) (j_order j) "order_date") ])
      (fst jo))
    (joined_orders db).

(** The recent-orders query of [refresh_analytics]: the same join, without
    the id, LIMIT 10.  *)
Definition recent_orders (db : database) : option (list dict) :=
  option_map (fun rows => map (fun d => tl d) (firstn 10 rows))
             (refresh_orders_table db).

End DatabaseDashboard.

(** ** [DataManager] of chapter 10's [main.py] *)

Module DataManager.

Definition sales_columns : list column :=
  [ not_null (col "product_name" AffText);
    not_null (col "quantity" AffInteger);
    not_null (col "price" AffReal);
    with_default DfltCurrentTimestamp (col "sale_date" AffNumeric);
    col "region" AffText;
    col "salesperson" AffText ].

(** The aggregate query of [get_sales_summary].  *)
Definition sales_summary_query (drv : driver) (db : database) : result dict :=
  sales <- of_option OperationalError (find_table db "sales") ;;
  quantity <- of_option OperationalError (resolve sales "quantity") ;;
  price <- of_option OperationalError (resolve sales "price") ;;
  product_name <- of_option OperationalError (resolve sales "product_name") ;;
  total_revenue <-
    sql_sum drv (map (fun r => sql_mul drv (get_col r quantity) (get_col r price))
                     (tbl_rows sales)) ;;
  Ok [ ("total_sales", VInt (sql_count sales));
       ("total_revenue", total_revenue);
       ("avg_price",
        sql_avg drv (map (fun r => get_col r price) (tbl_rows sales)));
       ("unique_products",
        VInt (sql_count_distinct
                (map (fun r => get_col r product_name) (tbl_rows sales)))) ].

(** [get_sales_summary]: [except Exception] turns every failure into [{}]. *)
Definition get_sales_summary (drv : driver) (db : database) : dict :=
  match sales_summary_query drv db with
  | Ok d => d
  | Raise _ => []
  end.

(** The four metrics [refresh_dashboard] reads out of the summary:
    [summary.get(k, 0) or 0].  *)
Definition dashboard_metrics (drv : driver) (db : database)
  : value * value * value * value :=
  let summary := get_sales_summary drv db in
  (or_zero (dict_get_or_zero summary "total_sales"),
   or_zero (dict_get_or_zero summary "total_revenue"),
   or_zero (dict_get_or_zero summary "avg_price"),
   or_zero (dict_get_or_zero summary "unique_products")).

End DataManager.

(** ** Mappings that fit a table

    The affinity a key of a mapping is stored under: that of the declared
    column it names; none for the id and for a name the table does not
    declare.  *)
Definition declared_affinity (t : table) (k : string) : option affinity :=
  match resolve t k with
  | Some (CCol i) => option_map col_aff (nth_error (tbl_cols t) i)
  | _ => None
  end.

(** A value that a column of affinity [a] stores as it is: NULL, a blob,
    or a value of the column's own class.  *)
Definition fits (a : affinity) (v : value) : bool :=
  match v, a with
  | VNull, _ => true
  | VBlob _, _ => true
  | _, AffBlob => true
  | VText _, AffText => true
  | VReal _, AffReal => true
  | VInt _, (AffInteger | AffNumeric) => true
  | _, _ => false
  end.

(** The names a mapping for [users] can use: the id and the declared
    columns.  *)
Definition users_keys : list string :=
  "id" :: map col_name DatabaseManager.users_columns.

(** ** A concrete driver and concrete databases, for the examples *)

Definition demo_driver : driver :=
  mk_driver "2024-01-01 00:00:00" (fun _ => "0.0") (fun _ => None)
            (fun _ => NInt 0).

Definition fresh_database : database :=
  DatabaseManager.create_tables empty_database.

Definition alice : dict :=
  [ ("username", VText "alice"); ("email", VText "a@x.com");
    ("full_name", VText "Alice") ].

Definition database_with_alice : database :=
  snd (DatabaseManager.insert_record demo_driver fresh_database "users" alice).

Definition empty_sales_database : database :=
  run_ddl [CreateTable "sales" DataManager.sales_columns] empty_database.

Definition fresh_dashboard : database :=
  DatabaseDashboard.create_tables empty_database.

(** A user, a product, and an order of the user for the product, made with
    the statements of [add_user], [add_product] and [load_sample_data].  *)
Definition dashboard_with_order : database :=
  match cursor_execute demo_driver fresh_dashboard
          "INSERT INTO users (name, email, role) VALUES (?, ?, ?)"
          [VText "John Doe"; VText "john@example.com"; VText "admin"] with
  | Ok (db1, _) =>
      match cursor_execute demo_driver db1
              "INSERT INTO products (name, category, price, stock) VALUES (?, ?, ?, ?)"
              [VText "Laptop"; VText "Electronics"; VInt 100; VInt 50] with
      | Ok (db2, _) =>
          match DatabaseDashboard.insert_sample_order demo_driver db2 1 1 2
                  "2024-01-15 10:00:00" with
          | Ok db3 => db3
          | Raise _ => db2
          end
      | Raise _ => db1
      end
  | Raise _ => fresh_dashboard
  end.

(** The same database after the user has been deleted: the order's
    [user_id] now points at nothing.  *)
Definition dashboard_with_dangling_order : database :=
  snd (DatabaseManager.delete_record demo_driver dashboard_with_order
         "users" [("id", VInt 1)]).

(** [alice] stored under the largest id there is: the next automatic id
    does not exist.  *)
Definition database_with_last_id : database :=
  snd (DatabaseManager.insert_record demo_driver fresh_database "users"
         (("id", VInt int64_max) :: alice)).

Definition bob : dict :=
  [ ("username", VText "bob"); ("email", VText "b@x.com");
    ("full_name", VText "Bob") ].

Definition database_with_two_users : database :=
  snd (DatabaseManager.insert_record demo_driver database_with_alice
         "users" bob).

(** * Properties *)

(** ** Names *)

Lemma name_eqb_upper (a b : string) :
  name_eqb a b = true <-> upper a = upper b.
Proof. unfold name_eqb. apply String.eqb_eq. Qed.

Lemma name_eqb_refl (a : string) : name_eqb a a = true.
Proof. apply name_eqb_upper. reflexivity. Qed.

Lemma name_eqb_sym (a b : string) : name_eqb a b = name_eqb b a.
Proof. unfold name_eqb. apply String.eqb_sym. Qed.

Lemma name_eqb_trans_l (a b c : string) :
  name_eqb a b = true -> name_eqb a c = name_eqb b c.
Proof.
  intros H. apply name_eqb_upper in H. unfold name_eqb. now rewrite H.
Qed.

Lemma name_eqb_trans_r (a b c : string) :
  name_eqb a b = true -> name_eqb c a = name_eqb c b.
Proof.
  intros H. rewrite (name_eqb_sym c a), (name_eqb_sym c b).
  now apply name_eqb_trans_l.
Qed.

(** ** The reader on concatenated text *)

Lemma string_app_assoc (a b c : string) :
  ((a ++ b) ++ c = a ++ (b ++ c))%string.
Proof. induction a as [|x a IH]; simpl; [reflexivity | now rewrite IH]. Qed.

Lemma string_app_nil_r (a : string) : (a ++ "" = a)%string.
Proof. induction a as [|x a IH]; simpl; [reflexivity | now rewrite IH]. Qed.

Definition not_dash (c : ascii) : bool := negb (Ascii.eqb c "-"%char).

Lemma all_chars_app (p : ascii -> bool) (a b : string) :
  all_chars p (a ++ b) = all_chars p a && all_chars p b.
Proof.
  induction a as [|c a IH]; simpl; [reflexivity|].
  now rewrite IH, andb_assoc.
Qed.

Lemma all_chars_impl (p q : ascii -> bool) (s : string) :
  (forall c, p c = true -> q c = true) ->
  all_chars p s = true -> all_chars q s = true.
Proof.
  intros Hpq. induction s as [|c s IH]; simpl; [reflexivity|].
  intros H. apply andb_prop in H as [Hc Hs].
  now rewrite (Hpq c Hc), IH.
Qed.

Lemma word_char_not_dash (c : ascii) :
  is_word_char c = true -> not_dash c = true.
Proof.
  destruct c as [[] [] [] [] [] [] [] []]; try reflexivity; discriminate.
Qed.

Lemma strip_comments_app (a b : string) :
  all_chars not_dash a = true ->
  strip_comments (a ++ b) = (a ++ strip_comments b)%string.
Proof.
  unfold strip_comments. induction a as [|c a IH]; simpl; [reflexivity|].
  intros H. apply andb_prop in H as [Hc Ha].
  unfold not_dash in Hc. apply negb_true_iff in Hc. rewrite Hc. simpl.
  now rewrite IH.
Qed.

Lemma strip_comments_plain (a : string) :
  all_chars not_dash a = true -> strip_comments a = a.
Proof.
  intros H. rewrite <- (string_app_nil_r a) at 1.
  rewrite strip_comments_app by assumption. apply string_app_nil_r.
Qed.

Lemma word_not_dash (w : string) :
  is_word w = true -> all_chars not_dash w = true.
Proof.
  unfold is_word. intros H. apply andb_prop in H as [_ H].
  revert H. apply all_chars_impl. exact word_char_not_dash.
Qed.

Lemma join_not_dash {A} (sep : string) (render : A -> string) (l : list A) :
  all_chars not_dash sep = true ->
  (forall x, In x l -> all_chars not_dash (render x) = true) ->
  all_chars not_dash (join sep (map render l)) = true.
Proof.
  intros Hsep. induction l as [|x l IH]; intros H; [reflexivity|].
  destruct l as [|y l].
  - simpl. apply H. now left.
  - change (join sep (map render (x :: y :: l)))
      with (render x ++ sep ++ join sep (map render (y :: l)))%string.
    rewrite !all_chars_app, Hsep, (H x) by now left.
    simpl. apply IH. intros z Hz. apply H. now right.
Qed.

Lemma lex_run_app (s1 s2 : string) : forall toks w,
  lex_run toks w (s1 ++ s2) =
  lex_run (fst (lex_run toks w s1)) (snd (lex_run toks w s1)) s2.
Proof.
  induction s1 as [|c s1 IH]; intros toks w; simpl; [reflexivity|].
  destruct (is_word_char c); [apply IH|].
  destruct (is_space c); [apply IH|].
  destruct (punct c); apply IH.
Qed.

Lemma lex_run_toks (s : string) : forall toks w,
  lex_run toks w s =
  (toks ++ fst (lex_run [] w s), snd (lex_run [] w s)).
Proof.
  induction s as [|c s IH]; intros toks w; simpl.
  - now rewrite app_nil_r.
  - destruct (is_word_char c); [apply IH|].
    destruct (is_space c).
    + rewrite (IH (toks ++ flush w)), (IH (flush w)). simpl.
      now rewrite app_assoc.
    + destruct (punct c).
      * rewrite (IH (toks ++ flush w ++ [t])), (IH (flush w ++ [t])). simpl.
        now rewrite !app_assoc.
      * rewrite (IH (toks ++ flush w ++ [TBad c])), (IH (flush w ++ [TBad c])).
        simpl. now rewrite !app_assoc.
Qed.

Lemma lex_run_word (s : string) : forall toks w,
  all_chars is_word_char s = true ->
  lex_run toks w s = (toks, (w ++ s)%string).
Proof.
  induction s as [|c s IH]; intros toks w H; simpl in *.
  - now rewrite string_app_nil_r.
  - apply andb_prop in H as [Hc Hs]. rewrite Hc, IH by assumption.
    now rewrite string_app_assoc.
Qed.

(** The text ends outside a word / starts outside a word.  *)
Definition ends_closed (s : string) : Prop := snd (lex_run [] "" s) = "".

Definition starts_closed (s : string) : bool :=
  match s with
  | EmptyString => true
  | String c _ => negb (is_word_char c)
  end.

Lemma lex_run_flush (c : ascii) (s : string) (toks : list token) (w : string) :
  is_word_char c = false ->
  lex_run toks w (String c s) = lex_run (toks ++ flush w) "" (String c s).
Proof.
  intros H. simpl. rewrite H.
  destruct (is_space c).
  - simpl. now rewrite app_nil_r.
  - destruct (punct c); simpl; now rewrite <- app_assoc.
Qed.

Lemma lex_unfold (s : string) :
  lex s = fst (lex_run [] "" s) ++ flush (snd (lex_run [] "" s)).
Proof. unfold lex. now destruct (lex_run [] "" s). Qed.

Lemma lex_app (s1 s2 : string) :
  ends_closed s1 \/ starts_closed s2 = true ->
  lex (s1 ++ s2) = lex s1 ++ lex s2.
Proof.
  intros H. rewrite !lex_unfold, lex_run_app.
  destruct (lex_run [] "" s1) as [t1 w1] eqn:E1. simpl.
  destruct H as [H | H].
  - unfold ends_closed in H. rewrite E1 in H. simpl in H. subst w1.
    rewrite (lex_run_toks s2 t1). simpl. now rewrite !app_nil_r, app_assoc.
  - destruct s2 as [|c s2].
    + simpl. now rewrite !app_nil_r.
    + simpl in H. apply negb_true_iff in H.
      rewrite lex_run_flush by assumption.
      rewrite (lex_run_toks (String c s2) (t1 ++ flush w1)). simpl fst. simpl snd.
      now rewrite app_assoc.
Qed.

Lemma ends_closed_app (s1 s2 : string) :
  ends_closed s2 -> s2 <> "" -> starts_closed s2 = true ->
  ends_closed (s1 ++ s2).
Proof.
  unfold ends_closed. intros H Hne Hs. rewrite lex_run_app.
  destruct s2 as [|c s2]; [congruence|].
  simpl in Hs. apply negb_true_iff in Hs.
  rewrite lex_run_flush by assumption.
  rewrite lex_run_toks. simpl. exact H.
Qed.

Lemma is_name_word (w : string) : is_name w = true -> is_word w = true.
Proof.
  unfold is_name, is_word. intros H.
  apply andb_prop in H as [H _]. apply andb_prop in H as [H _]. exact H.
Qed.

Lemma lex_word (w : string) : is_word w = true -> lex w = [TWord w].
Proof.
  unfold is_word. intros H. apply andb_prop in H as [Hne Hw].
  rewrite lex_unfold, lex_run_word by assumption. simpl.
  destruct w; [discriminate | reflexivity].
Qed.

(** The tokens of [sep.join(parts)] for parts that each read as [item]. *)
Fixpoint sep_tokens {A} (sep : list token) (item : A -> list token)
                    (l : list A) : list token :=
  match l with
  | [] => []
  | [x] => item x
  | x :: l' => item x ++ sep ++ sep_tokens sep item l'
  end.

Lemma lex_join {A} (sep : string) (septoks : list token)
      (render : A -> string) (item : A -> list token) (l : list A) :
  lex sep = septoks -> ends_closed sep ->
  (forall r, starts_closed (sep ++ r) = true) ->
  (forall x, In x l -> lex (render x) = item x) ->
  lex (join sep (map render l)) = sep_tokens septoks item l.
Proof.
  intros Hsep Hend Hstart. induction l as [|x l IH]; intros Hitem.
  - reflexivity.
  - destruct l as [|y l].
    + simpl. apply Hitem. now left.
    + change (join sep (map render (x :: y :: l)))
        with (render x ++ sep ++ join sep (map render (y :: l)))%string.
      rewrite lex_app.
      2:{ right. apply Hstart. }
      rewrite lex_app by (now left).
      rewrite Hsep, IH, Hitem; [reflexivity | now left |].
      intros z Hz. apply Hitem. now right.
Qed.

Definition name_tokens (ks : list string) : list token :=
  sep_tokens [TComma] (fun k => [TWord k]) ks.

Definition qmark_tokens {A} (l : list A) : list token :=
  sep_tokens [TComma] (fun _ => [TQMark]) l.

Definition eq_tokens (sep : token) (ks : list string) : list token :=
  sep_tokens [sep] (fun k => [TWord k; TEq; TQMark]) ks.

Lemma lex_names (ks : list string) :
  Forall (fun k => is_word k = true) ks ->
  lex (join ", " ks) = name_tokens ks.
Proof.
  intros H. rewrite <- (map_id ks) at 1.
  apply lex_join; try reflexivity.
  intros x Hx. apply lex_word. rewrite Forall_forall in H. now apply H.
Qed.

Lemma lex_qmarks {A} (l : list A) :
  lex (join ", " (map (fun _ => "?") l)) = qmark_tokens l.
Proof. apply lex_join; reflexivity. Qed.

Lemma lex_eq_placeholder (k : string) :
  is_word k = true ->
  lex (DatabaseManager.eq_placeholder k) = [TWord k; TEq; TQMark].
Proof.
  intros H. unfold DatabaseManager.eq_placeholder.
  rewrite lex_app by (right; reflexivity). now rewrite lex_word.
Qed.

Lemma lex_eqs (sep : string) (t : token) (ks : list string) :
  lex sep = [t] -> ends_closed sep ->
  (forall r, starts_closed (sep ++ r) = true) ->
  Forall (fun k => is_word k = true) ks ->
  lex (join sep (map DatabaseManager.eq_placeholder ks)) = eq_tokens t ks.
Proof.
  intros Hs He Hst H. apply lex_join; try assumption.
  intros x Hx. apply lex_eq_placeholder. rewrite Forall_forall in H. now apply H.
Qed.

(** ** The parser on the tokens of the generated lists *)

Definition starts_with (p : token -> bool) (ts : list token) : bool :=
  match ts with
  | t :: _ => p t
  | [] => false
  end.

Lemma parse_names_tokens (ks : list string) (rest : list token) :
  ks <> [] -> Forall (fun k => is_name k = true) ks ->
  starts_with is_comma rest = false ->
  parse_names (name_tokens ks ++ rest) = Some (ks, rest).
Proof.
  intros Hne H Hrest. induction ks as [|k ks IH]; [congruence|].
  inversion H as [|? ? Hk Hks]; subst.
  destruct ks as [|k' ks].
  - simpl. rewrite Hk. destruct rest as [|[] rest]; simpl in *; congruence.
  - change (name_tokens (k :: k' :: ks) ++ rest)
      with (TWord k :: TComma :: (name_tokens (k' :: ks) ++ rest)).
    simpl parse_names. rewrite Hk.
    change (sep_tokens [TComma] (fun k => [TWord k]) (k' :: ks))
      with (name_tokens (k' :: ks)).
    rewrite IH by (assumption || discriminate). reflexivity.
Qed.

Lemma parse_qmarks_tokens {A} (l : list A) (rest : list token) :
  l <> [] -> starts_with is_comma rest = false ->
  parse_qmarks (qmark_tokens l ++ rest) = Some (length l, rest).
Proof.
  intros Hne Hrest. induction l as [|x l IH]; [congruence|].
  destruct l as [|y l].
  - simpl. destruct rest as [|[] rest]; simpl in *; congruence.
  - change (qmark_tokens (x :: y :: l) ++ rest)
      with (TQMark :: TComma :: (qmark_tokens (y :: l) ++ rest)).
    simpl parse_qmarks.
    change (sep_tokens [TComma] (fun _ : A => [TQMark]) (y :: l))
      with (qmark_tokens (y :: l)).
    rewrite IH by discriminate. reflexivity.
Qed.

Lemma parse_eqs_tokens (sep : token -> bool) (t : token) (ks : list string)
      (rest : list token) :
  sep t = true ->
  ks <> [] -> Forall (fun k => is_name k = true) ks ->
  starts_with sep rest = false ->
  parse_eqs sep (eq_tokens t ks ++ rest) = Some (ks, rest).
Proof.
  intros Ht Hne H Hrest. induction ks as [|k ks IH]; [congruence|].
  inversion H as [|? ? Hk Hks]; subst.
  destruct ks as [|k' ks].
  - simpl. rewrite Hk. destruct rest as [|r rest]; [reflexivity|].
    simpl in Hrest. now rewrite Hrest.
  - change (eq_tokens t (k :: k' :: ks) ++ rest)
      with (TWord k :: TEq :: TQMark :: t :: (eq_tokens t (k' :: ks) ++ rest)).
    simpl parse_eqs. rewrite Hk, Ht.
    change (sep_tokens [t] (fun k => [TWord k; TEq; TQMark]) (k' :: ks))
      with (eq_tokens t (k' :: ks)).
    rewrite IH by (assumption || discriminate). reflexivity.
Qed.

Lemma Forall_name_word (ks : list string) :
  Forall (fun k => is_name k = true) ks ->
  Forall (fun k => is_word k = true) ks.
Proof. apply Forall_impl. exact is_name_word. Qed.

(** ** What the driver reads in the text of each helper *)

Lemma lex_insert_query (table : string) (data : dict) :
  is_word table = true ->
  Forall (fun k => is_word k = true) (keys data) ->
  lex (DatabaseManager.insert_query table data) =
  [TWord "INSERT"; TWord "INTO"; TWord table; TLParen]
    ++ name_tokens (keys data)
    ++ [TRParen; TWord "VALUES"; TLParen] ++ qmark_tokens data ++ [TRParen].
Proof.
  intros Ht Hk. unfold DatabaseManager.insert_query.
  rewrite lex_app by (left; reflexivity).
  rewrite lex_app by (right; reflexivity).
  rewrite lex_app by (left; reflexivity).
  rewrite lex_app by (right; reflexivity).
  rewrite lex_app by (left; reflexivity).
  rewrite lex_app by (right; reflexivity).
  rewrite (lex_word table), lex_names, lex_qmarks by assumption.
  reflexivity.
Qed.

Lemma keys_not_dash (d : dict) :
  Forall (fun k => is_word k = true) (keys d) ->
  forall k, In k (keys d) -> all_chars not_dash k = true.
Proof.
  intros H k Hk. rewrite Forall_forall in H. apply word_not_dash. auto.
Qed.

Lemma eq_placeholder_not_dash (k : string) :
  is_word k = true ->
  all_chars not_dash (DatabaseManager.eq_placeholder k) = true.
Proof.
  intros H. unfold DatabaseManager.eq_placeholder.
  now rewrite all_chars_app, word_not_dash.
Qed.

Lemma eq_clause_not_dash (sep : string) (d : dict) :
  all_chars not_dash sep = true ->
  Forall (fun k => is_word k = true) (keys d) ->
  all_chars not_dash (join sep (map DatabaseManager.eq_placeholder (keys d)))
  = true.
Proof.
  intros Hs H. apply join_not_dash; [exact Hs|].
  intros k Hk. apply eq_placeholder_not_dash.
  rewrite Forall_forall in H. auto.
Qed.

Ltac plain_text :=
  rewrite ?all_chars_app;
  repeat (apply andb_true_intro; split);
  first [ reflexivity
        | apply word_not_dash; solve [auto using is_name_word]
        | apply eq_clause_not_dash;
          [reflexivity | solve [auto using Forall_name_word]] ].

Lemma insert_query_not_dash (table : string) (data : dict) :
  is_word table = true ->
  Forall (fun k => is_word k = true) (keys data) ->
  all_chars not_dash (DatabaseManager.insert_query table data) = true.
Proof.
  intros Ht Hk. unfold DatabaseManager.insert_query.
  rewrite !all_chars_app, (word_not_dash table Ht).
  rewrite <- (map_id (keys data)) at 1.
  rewrite !join_not_dash; try reflexivity.
  intros k Hk'. now apply (keys_not_dash data).
Qed.

Lemma read_insert_query (table : string) (data : dict) :
  is_name table = true ->
  data <> [] ->
  Forall (fun k => is_name k = true) (keys data) ->
  read_statement (DatabaseManager.insert_query table data) =
  Some (SInsert table (keys data) (length data)).
Proof.
  intros Ht Hne Hk. unfold read_statement.
  rewrite strip_comments_plain
    by auto using insert_query_not_dash, is_name_word, Forall_name_word.
  rewrite lex_insert_query by auto using is_name_word, Forall_name_word.
  simpl. rewrite Ht.
  rewrite parse_names_tokens; try assumption; try reflexivity.
  2:{ destruct data; [congruence | discriminate]. }
  simpl. rewrite (parse_qmarks_tokens data [TRParen]) by (assumption || reflexivity).
  reflexivity.
Qed.

(** An empty mapping gives a statement the driver cannot read. *)
Lemma read_insert_query_empty (table : string) :
  is_name table = true ->
  DatabaseManager.insert_query table [] =
    ("INSERT INTO " ++ table ++ " () VALUES ()")%string /\
  read_statement (DatabaseManager.insert_query table []) = None.
Proof.
  intros Ht. split; [reflexivity|]. unfold read_statement.
  rewrite strip_comments_plain
    by (apply insert_query_not_dash; auto using is_name_word).
  rewrite lex_insert_query by auto using is_name_word.
  simpl. now rewrite Ht.
Qed.

Lemma truthy_dict_cons (c : dict) : c <> [] -> truthy_dict (Some c) = true.
Proof. destruct c; [congruence | reflexivity]. Qed.

Lemma lex_where_clause (c : dict) :
  Forall (fun k => is_word k = true) (keys c) ->
  lex (join " AND " (map DatabaseManager.eq_placeholder (keys c))) =
  eq_tokens (TWord "AND") (keys c).
Proof. intros H. apply lex_eqs; try reflexivity. exact H. Qed.

Lemma lex_set_clause (c : dict) :
  Forall (fun k => is_word k = true) (keys c) ->
  lex (join ", " (map DatabaseManager.eq_placeholder (keys c))) =
  eq_tokens TComma (keys c).
Proof. intros H. apply lex_eqs; try reflexivity. exact H. Qed.

Lemma select_query_where (table : string) (c : dict) :
  c <> [] ->
  DatabaseManager.select_query table (Some c) None None =
  ("SELECT * FROM " ++ table ++ " WHERE "
     ++ join " AND " (map DatabaseManager.eq_placeholder (keys c)))%string.
Proof.
  intros Hne. unfold DatabaseManager.select_query.
  rewrite truthy_dict_cons by assumption. simpl truthy_str. simpl truthy_int.
  cbv iota zeta. simpl dict_of. apply string_app_assoc.
Qed.

Lemma read_select_query (table : string) (c : dict) :
  is_name table = true ->
  c <> [] ->
  Forall (fun k => is_name k = true) (keys c) ->
  read_statement (DatabaseManager.select_query table (Some c) None None) =
  Some (SSelect None table (keys c) [] None).
Proof.
  intros Ht Hne Hk. unfold read_statement.
  rewrite select_query_where by assumption.
  rewrite strip_comments_plain.
  2:{ plain_text. }
  rewrite lex_app by (left; reflexivity).
  rewrite lex_app by (right; reflexivity).
  rewrite lex_app by (left; reflexivity).
  rewrite (lex_word table), lex_where_clause
    by auto using is_name_word, Forall_name_word.
  simpl. rewrite Ht.
  rewrite <- (app_nil_r (eq_tokens _ _)).
  rewrite parse_eqs_tokens; try assumption; try reflexivity.
  destruct c; [congruence | discriminate].
Qed.

(** The tokens of [UPDATE t SET sets WHERE conds], whatever the two clauses
    are.  *)
Lemma lex_update_text (table set_clause where_clause : string) :
  is_word table = true ->
  lex ("UPDATE " ++ table ++ " SET " ++ set_clause ++ " WHERE " ++ where_clause) =
  [TWord "UPDATE"; TWord table; TWord "SET"]
    ++ lex set_clause ++ [TWord "WHERE"] ++ lex where_clause.
Proof.
  intros Ht.
  rewrite lex_app by (left; reflexivity).
  rewrite lex_app by (right; reflexivity).
  rewrite lex_app by (left; reflexivity).
  rewrite lex_app by (right; reflexivity).
  rewrite lex_app by (left; reflexivity).
  rewrite (lex_word table) by assumption. reflexivity.
Qed.

Lemma read_update_query (table : string) (data conditions : dict) :
  is_name table = true ->
  data <> [] -> conditions <> [] ->
  Forall (fun k => is_name k = true) (keys data) ->
  Forall (fun k => is_name k = true) (keys conditions) ->
  read_statement (DatabaseManager.update_query table data conditions) =
  Some (SUpdate table (keys data) (keys conditions)).
Proof.
  intros Ht Hd Hc Hkd Hkc. unfold read_statement, DatabaseManager.update_query.
  rewrite strip_comments_plain.
  2:{ plain_text. }
  rewrite lex_update_text by auto using is_name_word.
  rewrite lex_set_clause, lex_where_clause by auto using Forall_name_word.
  simpl. rewrite Ht. simpl.
  rewrite parse_eqs_tokens; try assumption; try reflexivity.
  2:{ destruct data; [congruence | discriminate]. }
  simpl. rewrite <- (app_nil_r (eq_tokens _ _)).
  rewrite parse_eqs_tokens; try assumption; try reflexivity.
  destruct conditions; [congruence | discriminate].
Qed.

(** With nothing to set, the text reads [UPDATE t SET WHERE ...]. *)
Lemma read_update_query_empty (table : string) (conditions : dict) :
  is_name table = true ->
  read_statement (DatabaseManager.update_query table [] conditions) = None.
Proof.
  intros Ht. unfold read_statement, DatabaseManager.update_query.
  change (join ", " (map DatabaseManager.eq_placeholder (keys [])))
    with ""%string.
  rewrite strip_comments_app by reflexivity.
  rewrite strip_comments_app by (apply word_not_dash; auto using is_name_word).
  rewrite (strip_comments_app " SET ") by reflexivity.
  rewrite (strip_comments_app "") by reflexivity.
  rewrite (strip_comments_app " WHERE ") by reflexivity.
  rewrite lex_update_text by auto using is_name_word.
  simpl. rewrite Ht. simpl.
  destruct (lex _) as [|[] [|[] ?]]; reflexivity.
Qed.

Lemma lex_delete_text (table where_clause : string) :
  is_word table = true ->
  lex ("DELETE FROM " ++ table ++ " WHERE " ++ where_clause) =
  [TWord "DELETE"; TWord "FROM"; TWord table; TWord "WHERE"]
    ++ lex where_clause.
Proof.
  intros Ht.
  rewrite lex_app by (left; reflexivity).
  rewrite lex_app by (right; reflexivity).
  rewrite lex_app by (left; reflexivity).
  rewrite (lex_word table) by assumption. reflexivity.
Qed.

Lemma read_delete_query (table : string) (conditions : dict) :
  is_name table = true ->
  conditions <> [] ->
  Forall (fun k => is_name k = true) (keys conditions) ->
  read_statement (DatabaseManager.delete_query table conditions) =
  Some (SDelete table (keys conditions)).
Proof.
  intros Ht Hc Hkc. unfold read_statement, DatabaseManager.delete_query.
  rewrite strip_comments_plain.
  2:{ plain_text. }
  rewrite lex_delete_text by auto using is_name_word.
  rewrite lex_where_clause by auto using Forall_name_word.
  simpl. rewrite Ht. simpl.
  rewrite <- (app_nil_r (eq_tokens _ _)).
  rewrite parse_eqs_tokens; try assumption; try reflexivity.
  destruct conditions; [congruence | discriminate].
Qed.

(** With no condition, the text ends in [WHERE]. *)
Lemma read_delete_query_empty (table : string) :
  is_name table = true ->
  DatabaseManager.delete_query table [] =
    ("DELETE FROM " ++ table ++ " WHERE ")%string /\
  read_statement (DatabaseManager.delete_query table []) = None.
Proof.
  intros Ht. split; [reflexivity|].
  unfold read_statement, DatabaseManager.delete_query.
  rewrite strip_comments_plain.
  2:{ plain_text. }
  rewrite lex_delete_text by auto using is_name_word.
  simpl. now rewrite Ht.
Qed.

(** ** Tables of a database *)

Lemma find_table_in_name (ts : list table) (n : string) (t : table) :
  find_table_in ts n = Some t -> name_eqb (tbl_name t) n = true /\ In t ts.
Proof.
  induction ts as [|x ts IH]; simpl; [discriminate|].
  destruct (name_eqb (tbl_name x) n) eqn:E; intros H.
  - injection H as <-. auto.
  - destruct (IH H). auto.
Qed.

Lemma find_put_same (ts : list table) (n : string) (t t' : table) :
  find_table_in ts n = Some t ->
  name_eqb (tbl_name t') n = true ->
  find_table_in (put_table_in t' ts) n = Some t'.
Proof.
  intros H Hn. induction ts as [|x ts IH]; simpl in *; [discriminate|].
  rewrite (name_eqb_trans_r _ _ (tbl_name x) Hn).
  destruct (name_eqb (tbl_name x) n) eqn:E; simpl.
  - now rewrite Hn.
  - rewrite E. auto.
Qed.

Lemma find_put_other (ts : list table) (m : string) (t' : table) :
  name_eqb (tbl_name t') m = false ->
  find_table_in (put_table_in t' ts) m = find_table_in ts m.
Proof.
  intros Hm. induction ts as [|x ts IH]; simpl; [reflexivity|].
  destruct (name_eqb (tbl_name x) (tbl_name t')) eqn:E; simpl.
  - rewrite Hm. now rewrite (name_eqb_trans_l _ _ m E), Hm.
  - now rewrite IH.
Qed.

Lemma schema_put_in (ts : list table) (n : string) (t t' : table) :
  find_table_in ts n = Some t ->
  tbl_name t' = tbl_name t -> tbl_cols t' = tbl_cols t ->
  map (fun x => (tbl_name x, tbl_cols x)) (put_table_in t' ts) =
  map (fun x => (tbl_name x, tbl_cols x)) ts.
Proof.
  intros H Hn Hc. induction ts as [|x ts IH]; simpl in *; [reflexivity|].
  rewrite Hn.
  destruct (name_eqb (tbl_name x) n) eqn:E.
  - injection H as <-. rewrite name_eqb_refl. simpl. now rewrite Hn, Hc.
  - destruct (find_table_in_name _ _ _ H) as [Ht _].
    rewrite (name_eqb_trans_r _ _ (tbl_name x) Ht), E. simpl.
    now rewrite IH.
Qed.

Lemma schema_put (db : database) (n : string) (t : table)
      (rows : list row) (seq : Z) :
  find_table db n = Some t ->
  schema_of (put_table (set_rows t rows seq) db) = schema_of db.
Proof.
  intros H. unfold schema_of, put_table. simpl. f_equal.
  now apply (schema_put_in _ n t).
Qed.

Lemma find_put_table_same (db : database) (n : string) (t : table)
      (rows : list row) (seq : Z) :
  find_table db n = Some t ->
  find_table (put_table (set_rows t rows seq) db) n = Some (set_rows t rows seq).
Proof.
  intros H. unfold find_table, put_table. simpl.
  apply (find_put_same _ n t); [exact H|].
  simpl. now destruct (find_table_in_name _ _ _ H).
Qed.

Lemma find_put_table_other (db : database) (n m : string) (t : table)
      (rows : list row) (seq : Z) :
  find_table db n = Some t ->
  name_eqb n m = false ->
  find_table (put_table (set_rows t rows seq) db) m = find_table db m.
Proof.
  intros H Hm. unfold find_table, put_table. simpl.
  apply find_put_other. simpl.
  destruct (find_table_in_name _ _ _ H) as [Ht _].
  now rewrite (name_eqb_trans_l _ _ m Ht).
Qed.

(** ** One statement *)

Definition stmt_table (st : stmt) : string :=
  match st with
  | SInsert t _ _ | SSelect _ t _ _ _ | SUpdate t _ _ | SDelete t _ => t
  end.

Lemma bind_ok {A B} (r : result A) (k : A -> result B) (b : B) :
  bind r k = Ok b -> exists a, r = Ok a /\ k a = Ok b.
Proof. destruct r; simpl; [eauto | discriminate]. Qed.

Lemma of_option_ok {A} (e : exn) (o : option A) (a : A) :
  of_option e o = Ok a -> o = Some a.
Proof. destruct o; simpl; congruence. Qed.

Lemma bind_parameters_ok (n : nat) (params : list value) (u : unit) :
  bind_parameters n params = Ok u ->
  n = length params /\ forallb bindable params = true.
Proof.
  unfold bind_parameters.
  destruct (Nat.eqb n (length params)) eqn:E; [|discriminate].
  destruct (forallb bindable params); [|discriminate].
  apply Nat.eqb_eq in E. auto.
Qed.

Ltac inv_bind_as H a Ha :=
  apply bind_ok in H as (a & Ha & H);
  try (apply of_option_ok in Ha);
  try (apply bind_parameters_ok in Ha).

Ltac inv_bind H :=
  let a := fresh "a" in
  let Ha := fresh "Ha" in
  inv_bind_as H a Ha.

(** A statement that succeeds either leaves the database alone or replaces
    the rows of the one table it names.  *)
Lemma cursor_execute_effect (drv : driver) (db db' : database) (sql : string)
      (params : list value) (c : cursor) :
  cursor_execute drv db sql params = Ok (db', c) ->
  exists st t,
    read_statement sql = Some st /\
    find_table db (stmt_table st) = Some t /\
    (db' = db \/ exists rows seq, db' = put_table (set_rows t rows seq) db).
Proof.
  unfold cursor_execute. intros H. inv_bind H. rename a into st.
  exists st. destruct st as [tn cols n | proj tn conds order limit
                            | tn sets conds | tn conds]; simpl.
  - inv_bind H. inv_bind H.
    destruct (Nat.eqb (length cols) n); [|discriminate].
    inv_bind H. unfold step_insert in H. inv_bind H.
    destruct (constraints_ok _ _ _); [|discriminate].
    injection H as <- <-. eauto 8.
  - inv_bind H. inv_bind H. inv_bind H. inv_bind H. inv_bind H.
    unfold step_select in H.
    destruct (match limit with Some _ => _ | None => _ end); [|discriminate].
    injection H as <- <-. eauto 8.
  - inv_bind H. inv_bind H. inv_bind H. inv_bind H.
    unfold step_update in H. inv_bind H.
    injection H as <- <-. eauto 8.
  - inv_bind H. inv_bind H. inv_bind H.
    unfold step_delete in H. injection H as <- <-. eauto 8.
Qed.

Lemma cursor_execute_schema (drv : driver) (db db' : database) (sql : string)
      (params : list value) (c : cursor) :
  cursor_execute drv db sql params = Ok (db', c) ->
  schema_of db' = schema_of db.
Proof.
  intros H. apply cursor_execute_effect in H as (st & t & _ & Ht & [-> | H]).
  - reflexivity.
  - destruct H as (rows & seq & ->). now apply (schema_put _ (stmt_table st)).
Qed.

Lemma cursor_execute_frame (drv : driver) (db db' : database) (sql : string)
      (params : list value) (c : cursor) (st : stmt) (other : string) :
  read_statement sql = Some st ->
  name_eqb (stmt_table st) other = false ->
  cursor_execute drv db sql params = Ok (db', c) ->
  find_table db' other = find_table db other.
Proof.
  intros Hp Hn H.
  apply cursor_execute_effect in H as (st' & t & Hp' & Ht & [-> | H]).
  - reflexivity.
  - destruct H as (rows & seq & ->).
    rewrite Hp in Hp'. injection Hp' as <-.
    now apply (find_put_table_other _ (stmt_table st)).
Qed.

Lemma execute_query_eq (drv : driver) (db : database) (q : string)
      (ps : list value) :
  DatabaseManager.execute_query drv db q ps = cursor_execute drv db q ps.
Proof. unfold DatabaseManager.execute_query. now destruct ps. Qed.

(** ** The text of an INSERT and its parameters *)

Lemma insert_query_keys (table : string) (d1 d2 : dict) :
  keys d1 = keys d2 ->
  DatabaseManager.insert_query table d1 = DatabaseManager.insert_query table d2.
Proof.
  intros H. unfold DatabaseManager.insert_query.
  assert (E : forall d : dict,
             map (fun _ : string * value => "?") d
             = map (fun _ : string => "?") (keys d)).
  { intros d. unfold keys. now rewrite map_map. }
  now rewrite (E d1), (E d2), H.
Qed.

Lemma lookup_ref_in (refs : list colref) : forall (params : list value) c v,
  lookup_ref (combine refs params) c = Some v -> In v params.
Proof.
  induction refs as [|r refs IH]; intros [|p params] c v; simpl;
    try discriminate.
  destruct (colref_eqb r c); intros H.
  - injection H as <-. now left.
  - right. eauto.
Qed.

Lemma max_rowid_nonneg (rows : list row) : 0 <= max_rowid rows.
Proof. induction rows; simpl; lia. Qed.

Lemma max_rowid_ge (rows : list row) (r : row) :
  In r rows -> fst r <= max_rowid rows.
Proof.
  induction rows as [|x rows IH]; simpl; [tauto|].
  intros [-> | H]; [lia | specialize (IH H); lia].
Qed.

Lemma demote_real_int (q : Q) (z : Z) :
  demote_real q = VInt z -> in_int64 z = true.
Proof.
  unfold demote_real.
  destruct (Q_is_int q); simpl; [|discriminate].
  destruct (in_int64 (Q_to_int q)) eqn:E; [|discriminate].
  intros H. injection H as <-. exact E.
Qed.

Lemma numeric_affinity_int (drv : driver) (v : value) (z : Z) :
  bindable v = true -> numeric_affinity drv v = VInt z -> in_int64 z = true.
Proof.
  destruct v as [|x|q|s|b]; simpl; try discriminate.
  - intros H E. now injection E as <-.
  - intros _. apply demote_real_int.
  - intros _. destruct (text_to_num drv s) as [[x|q]|]; simpl; try discriminate.
    + destruct (in_int64 x) eqn:E; intros H.
      * now injection H as <-.
      * now apply demote_real_int in H.
    + apply demote_real_int.
Qed.

Lemma must_be_int_bounds (drv : driver) (v : value) (z : Z) :
  bindable v = true -> must_be_int drv v = Ok z -> in_int64 z = true.
Proof.
  unfold must_be_int. intros Hb H.
  destruct (numeric_affinity drv v) eqn:E; try discriminate.
  injection H as <-. eauto using numeric_affinity_int.
Qed.

(** What a successful INSERT did.  *)
Lemma cursor_execute_insert_inv (drv : driver) (db db' : database)
      (sql : string) (params : list value) (c : cursor)
      (tn : string) (cols : list string) (n : nat) :
  read_statement sql = Some (SInsert tn cols n) ->
  cursor_execute drv db sql params = Ok (db', c) ->
  exists t refs z,
    find_table db tn = Some t /\
    resolve_all t cols = Some refs /\
    length cols = length params /\ n = length params /\
    forallb bindable params = true /\
    in_int64 z = true /\
    (lookup_ref (combine refs params) CRowid = None -> z = next_rowid t) /\
    let r := (z, insert_values drv (tbl_cols t) 0 (combine refs params)) in
    constraints_ok t r (tbl_rows t) = true /\
    db' = put_table (set_rows t (tbl_rows t ++ [r]) (Z.max (tbl_seq t) z)) db /\
    c = mk_cursor [] (VInt z) 1.
Proof.
  unfold cursor_execute. intros Hp H. rewrite Hp in H. simpl in H.
  inv_bind_as H t Ht. inv_bind_as H refs Hrefs.
  destruct (Nat.eqb (length cols) n) eqn:En; [|discriminate].
  apply Nat.eqb_eq in En. inv_bind_as H u Hu. destruct Hu as [Hlen Hbind].
  unfold step_insert in H. inv_bind_as H z Hz.
  destruct (constraints_ok _ _ _) eqn:Hc; [|discriminate].
  injection H as <- <-.
  exists t, refs, z. repeat split; try assumption; try congruence.
  - destruct (lookup_ref (combine refs params) CRowid) as [v|] eqn:El.
    + assert (Hv : bindable v = true).
      { apply lookup_ref_in in El. rewrite forallb_forall in Hbind. auto. }
      assert (Hauto : (if (next_rowid t <=? int64_max)%Z
                       then Ok (next_rowid t) else Raise OperationalError)
                      = Ok z -> in_int64 z = true).
      { destruct (next_rowid t <=? int64_max)%Z eqn:E; [|discriminate].
        intros H. injection H as <-. unfold in_int64. rewrite E.
        apply andb_true_intro. split; [|reflexivity].
        apply Z.leb_le. unfold next_rowid, int64_min.
        pose proof (max_rowid_nonneg (tbl_rows t)). lia. }
      destruct v; eauto using must_be_int_bounds.
    + destruct (next_rowid t <=? int64_max)%Z eqn:E; [|discriminate].
      injection Hz as <-. unfold in_int64. rewrite E.
      apply andb_true_intro. split; [|reflexivity].
      apply Z.leb_le. unfold next_rowid, int64_min.
      pose proof (max_rowid_nonneg (tbl_rows t)). lia.
  - intros El. rewrite El in Hz.
    destruct (next_rowid t <=? int64_max)%Z; [|discriminate]. congruence.
Qed.

Lemma insert_record_schema (drv : driver) (db : database) (table : string)
      (data : dict) :
  schema_of (snd (DatabaseManager.insert_record drv db table data))
  = schema_of db.
Proof.
  unfold DatabaseManager.insert_record. rewrite execute_query_eq.
  destruct (cursor_execute drv db _ _) as [[db' c]|e] eqn:E; simpl.
  - eauto using cursor_execute_schema.
  - reflexivity.
Qed.

Lemma insert_record_inv (drv : driver) (db db' : database) (table : string)
      (data : dict) (id : value) :
  is_name table = true ->
  Forall (fun k => is_name k = true) (keys data) ->
  DatabaseManager.insert_record drv db table data = (Ok id, db') ->
  exists t refs z,
    data <> [] /\
    find_table db table = Some t /\
    resolve_all t (keys data) = Some refs /\
    forallb bindable (values data) = true /\
    id = VInt z /\ in_int64 z = true /\
    (lookup_ref (combine refs (values data)) CRowid = None ->
     z = next_rowid t) /\
    let r := (z, insert_values drv (tbl_cols t) 0 (combine refs (values data))) in
    constraints_ok t r (tbl_rows t) = true /\
    db' = put_table (set_rows t (tbl_rows t ++ [r]) (Z.max (tbl_seq t) z)) db.
Proof.
  intros Ht Hk. unfold DatabaseManager.insert_record. rewrite execute_query_eq.
  destruct (cursor_execute drv db _ _) as [[db1 c]|e] eqn:E; [|discriminate].
  intros H. injection H as <- <-.
  assert (Hne : data <> []).
  { intros ->. unfold cursor_execute in E.
    destruct (read_insert_query_empty table Ht) as [_ Hp].
    rewrite Hp in E. discriminate. }
  pose proof (read_insert_query table data Ht Hne Hk) as Hp.
  destruct (cursor_execute_insert_inv _ _ _ _ _ _ _ _ _ Hp E)
    as (t & refs & z & Hf & Hr & Hl & Hn & Hb & Hz & Hauto & Hc & -> & ->).
  exists t, refs, z. simpl. repeat split; assumption.
Qed.

(** C1.  The text of the INSERT that [insert_record] builds depends on the
    table name and on the keys of the mapping only, never on its values,
    which travel in the parameter list; whatever the mapping, the tables, their
    columns and the indexes are the same after the call as before; with a
    plain table name and plain keys a successful call has appended one row
    to that table and touched nothing else; and a product whose name is any string at all (a quote, a
    semicolon, a DROP TABLE fragment) is stored and read back as that very
    string.  *)
Theorem insert_values_are_bound_parameters :
  (forall table d1 d2,
      keys d1 = keys d2 ->
      DatabaseManager.insert_query table d1
      = DatabaseManager.insert_query table d2) /\
  (forall drv db table data,
      schema_of (snd (DatabaseManager.insert_record drv db table data))
      = schema_of db) /\
  (forall drv db table data id db',
      is_name table = true ->
      Forall (fun k => is_name k = true) (keys data) ->
      DatabaseManager.insert_record drv db table data = (Ok id, db') ->
      exists t r,
        find_table db table = Some t /\ id = VInt (fst r) /\
        find_table db' table
        = Some (set_rows t (tbl_rows t ++ [r]) (Z.max (tbl_seq t) (fst r))) /\
        forall other, name_eqb table other = false ->
                      find_table db' other = find_table db other) /\
  (forall drv s,
      let data := [("name", VText s); ("price", VReal (inject_Z 1))] in
      let out := DatabaseManager.insert_record drv fresh_database
                   "products" data in
      fst out = Ok (VInt 1) /\
      schema_of (snd out) = schema_of fresh_database /\
      exists fetched,
        DatabaseManager.select_records drv (snd out) "products"
          (Some [("id", VInt 1)]) None None = Ok [fetched] /\
        row_get fetched "name" = Some (VText s)).
Proof.
  split; [exact insert_query_keys|].
  split; [exact insert_record_schema|].
  split.
  - intros drv db table data id db' Hn Hk H.
    apply insert_record_inv in H
      as (t & refs & z & _ & Ht & _ & _ & -> & _ & _ & _ & ->);
      try assumption.
    eexists t, (z, _). simpl. repeat split; try assumption.
    + now apply find_put_table_same.
    + intros other Ho. now apply (find_put_table_other _ table).
  - intros drv s. cbv zeta. split; [reflexivity|]. split; [reflexivity|].
    eexists. split; reflexivity.
Qed.

Lemma insert_values_are_bound_parameters_witness :
  is_name "users" = true /\
  Forall (fun k => is_name k = true) (keys alice) /\
  exists t r,
    find_table fresh_database "users" = Some t /\
    find_table database_with_alice "users"
    = Some (set_rows t (tbl_rows t ++ [r]) (Z.max (tbl_seq t) (fst r))).
Proof.
  split; [reflexivity|].
  split; [repeat constructor|].
  destruct insert_values_are_bound_parameters as (_ & _ & H & _).
  destruct (H demo_driver fresh_database "users" alice (VInt 1)
              database_with_alice eq_refl
              ltac:(repeat constructor) eq_refl)
    as (t & r & Ht & _ & Ht' & _).
  exists t, r. split; assumption.
Defined.

(** ** Degenerate statements *)

(** C6 as stated fails: with an empty mapping [insert_record] does build
    and submit a statement, and what comes back is the driver's syntax
    error.  *)
Lemma empty_insert_is_not_a_validation_error :
  DatabaseManager.insert_query "users" [] = "INSERT INTO users () VALUES ()" /\
  fst (DatabaseManager.insert_record demo_driver fresh_database "users" [])
  = Raise OperationalError /\
  fst (DatabaseManager.insert_record demo_driver fresh_database "users" [])
  <> Raise ValidationError.
Proof. repeat split. discriminate. Qed.

(** C6, amended.  For a plain table name, [insert_record] with an empty
    mapping builds [INSERT INTO t () VALUES ()] and [update_record] with an
    empty mapping builds [UPDATE t SET  WHERE ...]; both are handed to the
    driver, which rejects them as syntax errors ([OperationalError]), and
    the database is left as it was.  *)
Theorem empty_fields_rejected_by_driver
        (drv : driver) (db : database) (table : string) (conditions : dict) :
  is_name table = true ->
  DatabaseManager.insert_query table []
    = ("INSERT INTO " ++ table ++ " () VALUES ()")%string /\
  DatabaseManager.insert_record drv db table []
    = (Raise OperationalError, db) /\
  DatabaseManager.update_query table [] conditions
    = ("UPDATE " ++ table ++ " SET  WHERE "
         ++ join " AND " (map DatabaseManager.eq_placeholder (keys conditions)))%string /\
  DatabaseManager.update_record drv db table [] conditions
    = (Raise OperationalError, db).
Proof.
  intros Ht. split; [reflexivity|]. split; [|split; [reflexivity|]].
  - unfold DatabaseManager.insert_record. rewrite execute_query_eq.
    unfold cursor_execute.
    destruct (read_insert_query_empty table Ht) as [_ ->]. reflexivity.
  - unfold DatabaseManager.update_record. rewrite execute_query_eq.
    unfold cursor_execute.
    rewrite (read_update_query_empty table conditions Ht). reflexivity.
Qed.

Lemma empty_fields_rejected_by_driver_witness :
  is_name "users" = true /\
  DatabaseManager.insert_record demo_driver database_with_alice "users" []
    = (Raise OperationalError, database_with_alice) /\
  DatabaseManager.update_record demo_driver database_with_alice "users" []
      [("id", VInt 1)]
    = (Raise OperationalError, database_with_alice).
Proof.
  split; [reflexivity|].
  destruct (empty_fields_rejected_by_driver demo_driver database_with_alice
              "users" [("id", VInt 1)] eq_refl) as (_ & H1 & _ & H2).
  split; assumption.
Defined.

(** C10 as stated fails: the table name is pasted into the text, so a name
    that carries a comment marker cuts the dangling [WHERE] off; the
    statement that is left deletes every row and the helper reports one row
    removed.  *)
Lemma delete_with_empty_conditions_can_delete_all :
  DatabaseManager.delete_query "users --" [] = "DELETE FROM users -- WHERE " /\
  option_map (fun t => length (tbl_rows t))
    (find_table database_with_alice "users") = Some 1%nat /\
  fst (DatabaseManager.delete_record demo_driver database_with_alice
         "users --" []) = Ok 1 /\
  option_map tbl_rows
    (find_table (snd (DatabaseManager.delete_record demo_driver
                        database_with_alice "users --" [])) "users")
  = Some [].
Proof. repeat split. Qed.

(** C10, amended.  For a plain table name, [delete_record] with an empty conditions
    mapping builds [DELETE FROM t WHERE ] (the WHERE is always emitted, with
    nothing after it), the driver rejects it, the exception leaves the helper,
    and the database (every row of every table) is what it was.  *)
Theorem delete_with_empty_conditions_raises
        (drv : driver) (db : database) (table : string) :
  is_name table = true ->
  DatabaseManager.delete_query table []
    = ("DELETE FROM " ++ table ++ " WHERE ")%string /\
  DatabaseManager.delete_record drv db table []
    = (Raise OperationalError, db).
Proof.
  intros Ht. split; [reflexivity|].
  unfold DatabaseManager.delete_record. rewrite execute_query_eq.
  unfold cursor_execute.
  destruct (read_delete_query_empty table Ht) as [_ ->]. reflexivity.
Qed.

Lemma delete_with_empty_conditions_raises_witness :
  is_name "users" = true /\
  DatabaseManager.delete_record demo_driver database_with_alice "users" []
    = (Raise OperationalError, database_with_alice).
Proof.
  split; [reflexivity|].
  apply (delete_with_empty_conditions_raises demo_driver database_with_alice
           "users"); reflexivity.
Defined.

(** ** Schema creation *)

Definition ddl_ext (s1 s2 : database) : Prop :=
  (forall n, has_table s1 n = true -> has_table s2 n = true) /\
  (forall n, has_index s1 n = true -> has_index s2 n = true) /\
  (forall n, has_index s1 n = true -> has_table s1 n = false ->
             has_table s2 n = false) /\
  (forall n t, find_table s1 n = Some t -> find_table s2 n = Some t).

Lemma ddl_ext_refl (s : database) : ddl_ext s s.
Proof. unfold ddl_ext. auto. Qed.

Lemma ddl_ext_trans (s1 s2 s3 : database) :
  ddl_ext s1 s2 -> ddl_ext s2 s3 -> ddl_ext s1 s3.
Proof.
  intros (A1 & A2 & A3 & A4) (B1 & B2 & B3 & B4). unfold ddl_ext.
  repeat split; auto.
Qed.

Lemma has_index_congr (db : database) (m n : string) :
  name_eqb m n = true -> has_index db m = has_index db n.
Proof.
  intros H. unfold has_index. induction (db_indexes db) as [|i l IH]; simpl.
  - reflexivity.
  - now rewrite IH, (name_eqb_trans_r _ _ (idx_name i) H).
Qed.

Lemma find_table_in_app (ts : list table) (t : table) (n : string) (x : table) :
  find_table_in ts n = Some x -> find_table_in (ts ++ [t]) n = Some x.
Proof.
  induction ts as [|y ts IH]; simpl; [discriminate|].
  destruct (name_eqb (tbl_name y) n); auto.
Qed.

Lemma exec_ddl_ext (st : ddl) (s s' : database) :
  exec_ddl st s = Ok s' -> ddl_ext s s'.
Proof.
  destruct st as [m cols | m t c]; simpl.
  - destruct (has_table s m) eqn:Et.
    + intros H. injection H as <-. apply ddl_ext_refl.
    + destruct (has_index s m) eqn:Ei; simpl; [discriminate|].
      intros H. injection H as <-. unfold ddl_ext, has_table, has_index,
        find_table. simpl. repeat split.
      * intros n Hn. rewrite existsb_app, Hn. reflexivity.
      * auto.
      * intros n Hi Hn. rewrite existsb_app, Hn. simpl. rewrite orb_false_r.
        destruct (name_eqb m n) eqn:E; [|reflexivity].
        fold (has_index s n) in Hi.
        rewrite <- (has_index_congr s m n E) in Hi. congruence.
      * intros n x. apply find_table_in_app.
  - intros H. inv_bind H.
    destruct (has_table s m); simpl in H; [discriminate|].
    destruct (has_index s m).
    + injection H as <-. apply ddl_ext_refl.
    + inv_bind H. injection H as <-.
      unfold ddl_ext, has_table, has_index, find_table. simpl.
      repeat split; auto.
      intros n Hn. rewrite existsb_app, Hn. reflexivity.
Qed.

Lemma run_ddl_ext (steps : list ddl) : forall s, ddl_ext s (run_ddl steps s).
Proof.
  induction steps as [|st steps IH]; intros s; simpl.
  - apply ddl_ext_refl.
  - destruct (exec_ddl st s) as [s'|e] eqn:E.
    + eapply ddl_ext_trans; [eapply exec_ddl_ext; eassumption | apply IH].
    + apply ddl_ext_refl.
Qed.

(** A statement that has succeeded once does nothing from then on. *)
Lemma exec_ddl_settled (st : ddl) (s s1 s2 : database) :
  exec_ddl st s = Ok s1 -> ddl_ext s1 s2 -> exec_ddl st s2 = Ok s2.
Proof.
  intros H (E1 & E2 & E3 & E4). destruct st as [m cols | m t c]; simpl in *.
  - assert (Hm : has_table s1 m = true).
    { destruct (has_table s m) eqn:Et.
      - injection H as <-. exact Et.
      - destruct (has_index s m); simpl in H; [discriminate|].
        injection H as <-. unfold has_table. simpl.
        rewrite existsb_app. simpl. rewrite name_eqb_refl.
        now rewrite orb_true_r. }
    now rewrite (E1 _ Hm).
  - inv_bind_as H tb Htb.
    destruct (has_table s m) eqn:Et; simpl in H; [discriminate|].
    assert (Hs1 : find_table s1 t = Some tb /\ has_table s1 m = false
                  /\ has_index s1 m = true).
    { destruct (has_index s m) eqn:Ei.
      - injection H as <-. auto.
      - inv_bind H. injection H as <-.
        unfold find_table, has_table, has_index in *. simpl.
        repeat split; try assumption.
        rewrite existsb_app. simpl. rewrite name_eqb_refl.
        now rewrite orb_true_r. }
    destruct Hs1 as (F & T & I).
    rewrite (E4 _ _ F). simpl. rewrite (E3 _ I T). simpl.
    now rewrite (E2 _ I).
Qed.

Lemma run_ddl_idempotent (steps : list ddl) : forall s,
  run_ddl steps (run_ddl steps s) = run_ddl steps s.
Proof.
  induction steps as [|st steps IH]; intros s; [reflexivity|].
  simpl. destruct (exec_ddl st s) as [s1|e] eqn:E.
  - simpl. rewrite (exec_ddl_settled st s s1 _ E (run_ddl_ext steps s1)).
    apply IH.
  - simpl. now rewrite E.
Qed.

(** C4.  [create_tables] is idempotent: from the state that one call
    leaves behind, any number of further calls gives back that very state:
    the same tables with the same columns, the same indexes, and the same
    rows.  It holds from every starting database, also one in which a
    statement of the schema fails.  *)
Theorem create_tables_idempotent (db : database) (n : nat) :
  Nat.iter n DatabaseManager.create_tables (DatabaseManager.create_tables db)
  = DatabaseManager.create_tables db /\
  schema_of (Nat.iter n DatabaseManager.create_tables
               (DatabaseManager.create_tables db))
  = schema_of (DatabaseManager.create_tables db) /\
  forall table,
    find_table (Nat.iter n DatabaseManager.create_tables
                  (DatabaseManager.create_tables db)) table
    = find_table (DatabaseManager.create_tables db) table.
Proof.
  assert (H : Nat.iter n DatabaseManager.create_tables
                (DatabaseManager.create_tables db)
              = DatabaseManager.create_tables db).
  { induction n as [|n IH]; simpl; [reflexivity|].
    rewrite IH. apply run_ddl_idempotent. }
  rewrite H. auto.
Qed.

(** ** Aggregates of an empty table *)



(** ** The joined orders view *)

Lemma in_insert_joined (leb : DatabaseDashboard.joined ->
                             DatabaseDashboard.joined -> bool)
      (j x : DatabaseDashboard.joined) (l : list DatabaseDashboard.joined) :
  In x (DatabaseDashboard.insert_joined leb j l) <-> x = j \/ In x l.
Proof.
  induction l as [|y l IH]; simpl.
  - intuition.
  - destruct (leb j y); simpl; rewrite ?IH; intuition.
Qed.

Lemma in_sorted_joined (leb : DatabaseDashboard.joined ->
                             DatabaseDashboard.joined -> bool)
      (x : DatabaseDashboard.joined) (l : list DatabaseDashboard.joined) :
  In x (fold_right (DatabaseDashboard.insert_joined leb) [] l) <-> In x l.
Proof.
  induction l as [|y l IH]; simpl; [tauto|].
  rewrite in_insert_joined, IH. intuition.
Qed.

Lemma in_join_orders (orders users products : table) (uid pid : colref)
      (j : DatabaseDashboard.joined) :
  In j (DatabaseDashboard.join_orders orders users products uid pid) <->
  In (DatabaseDashboard.j_order j) (tbl_rows orders) /\
  In (DatabaseDashboard.j_user j) (tbl_rows users) /\
  In (DatabaseDashboard.j_product j) (tbl_rows products) /\
  sql_eqb (get_col (DatabaseDashboard.j_order j) uid)
          (VInt (fst (DatabaseDashboard.j_user j))) = true /\
  sql_eqb (get_col (DatabaseDashboard.j_order j) pid)
          (VInt (fst (DatabaseDashboard.j_product j))) = true.
Proof.
  unfold DatabaseDashboard.join_orders. rewrite in_flat_map. split.
  - intros (o & Ho & H). apply in_flat_map in H as (u & Hu & H).
    destruct (sql_eqb (get_col o uid) (VInt (fst u))) eqn:Eu; [|destruct H].
    apply in_flat_map in H as (p & Hp & H).
    destruct (sql_eqb (get_col o pid) (VInt (fst p))) eqn:Ep; [|destruct H].
    destruct H as [<- | []]. simpl. auto.
  - intros (Ho & Hu & Hp & Eu & Ep). destruct j as [o u p]. simpl in *.
    exists o. split; [exact Ho|]. apply in_flat_map.
    exists u. split; [exact Hu|]. rewrite Eu. apply in_flat_map.
    exists p. split; [exact Hp|]. rewrite Ep. now left.
Qed.




(** ** One table at a time *)

Lemma parse_insert_table (into t : string) (ts : list token) (st : stmt) :
  parse_insert (TWord into :: TWord t :: ts) = Some st -> stmt_table st = t.
Proof.
  unfold parse_insert. intros H.
  repeat match type of H with
         | context [match ?x with _ => _ end] => destruct x; try discriminate
         end.
  now injection H as <-.
Qed.

Lemma parse_update_table (t : string) (ts : list token) (st : stmt) :
  parse_update (TWord t :: ts) = Some st -> stmt_table st = t.
Proof.
  unfold parse_update. intros H.
  repeat match type of H with
         | context [match ?x with _ => _ end] => destruct x; try discriminate
         end.
  destruct (parse_where _); [|discriminate]. now injection H as <-.
Qed.

Lemma parse_delete_table (from t : string) (ts : list token) (st : stmt) :
  parse_delete (TWord from :: TWord t :: ts) = Some st -> stmt_table st = t.
Proof.
  unfold parse_delete. intros H.
  destruct (kw "FROM" from && is_name t); [|discriminate].
  destruct (parse_where ts); [|discriminate]. now injection H as <-.
Qed.

Lemma read_insert_table (table : string) (data : dict) (st : stmt) :
  is_name table = true ->
  read_statement (DatabaseManager.insert_query table data) = Some st ->
  stmt_table st = table.
Proof.
  intros Ht. unfold read_statement, DatabaseManager.insert_query.
  rewrite strip_comments_app by reflexivity.
  rewrite strip_comments_app by plain_text.
  rewrite (strip_comments_app " (") by reflexivity.
  rewrite lex_app by (left; reflexivity).
  rewrite lex_app by (right; reflexivity).
  rewrite (lex_word table) by auto using is_name_word.
  apply parse_insert_table.
Qed.

Lemma read_update_table (table : string) (data conditions : dict) (st : stmt) :
  is_name table = true ->
  read_statement (DatabaseManager.update_query table data conditions) = Some st ->
  stmt_table st = table.
Proof.
  intros Ht. unfold read_statement, DatabaseManager.update_query.
  rewrite strip_comments_app by reflexivity.
  rewrite strip_comments_app by plain_text.
  rewrite (strip_comments_app " SET ") by reflexivity.
  rewrite lex_app by (left; reflexivity).
  rewrite lex_app by (right; reflexivity).
  rewrite (lex_word table) by auto using is_name_word.
  apply parse_update_table.
Qed.

Lemma read_delete_table (table : string) (conditions : dict) (st : stmt) :
  is_name table = true ->
  read_statement (DatabaseManager.delete_query table conditions) = Some st ->
  stmt_table st = table.
Proof.
  intros Ht. unfold read_statement, DatabaseManager.delete_query.
  rewrite strip_comments_app by reflexivity.
  rewrite strip_comments_app by plain_text.
  rewrite (strip_comments_app " WHERE ") by reflexivity.
  rewrite lex_app by (left; reflexivity).
  rewrite lex_app by (right; reflexivity).
  rewrite (lex_word table) by auto using is_name_word.
  apply parse_delete_table.
Qed.

Lemma execute_frame (drv : driver) (db : database) (sql : string)
      (params : list value) (table other : string) :
  (forall st, read_statement sql = Some st -> stmt_table st = table) ->
  name_eqb table other = false ->
  forall db' c,
    cursor_execute drv db sql params = Ok (db', c) ->
    find_table db' other = find_table db other.
Proof.
  intros Hst Hn db' c E.
  destruct (cursor_execute_effect _ _ _ _ _ _ E) as (st & _ & Hp & _).
  apply (cursor_execute_frame drv db db' sql params c st other Hp); [|exact E].
  now rewrite (Hst st Hp).
Qed.

(** The three writing helpers touch the table they name and no other. *)
Lemma insert_record_frame (drv : driver) (db : database) (table other : string)
      (data : dict) :
  is_name table = true -> name_eqb table other = false ->
  find_table (snd (DatabaseManager.insert_record drv db table data)) other
  = find_table db other.
Proof.
  intros Ht Hn. unfold DatabaseManager.insert_record.
  rewrite execute_query_eq.
  destruct (cursor_execute drv db _ _) as [[db' c]|e] eqn:E; [|reflexivity].
  simpl. revert E. apply execute_frame with (table := table); [|exact Hn].
  intros st. now apply read_insert_table.
Qed.

Lemma update_record_frame (drv : driver) (db : database) (table other : string)
      (data conditions : dict) :
  is_name table = true -> name_eqb table other = false ->
  find_table (snd (DatabaseManager.update_record drv db table data conditions))
             other
  = find_table db other.
Proof.
  intros Ht Hn. unfold DatabaseManager.update_record.
  rewrite execute_query_eq.
  destruct (cursor_execute drv db _ _) as [[db' c]|e] eqn:E; [|reflexivity].
  simpl. revert E. apply execute_frame with (table := table); [|exact Hn].
  intros st. now apply read_update_table.
Qed.

Lemma delete_record_frame (drv : driver) (db : database) (table other : string)
      (conditions : dict) :
  is_name table = true -> name_eqb table other = false ->
  find_table (snd (DatabaseManager.delete_record drv db table conditions)) other
  = find_table db other.
Proof.
  intros Ht Hn. unfold DatabaseManager.delete_record.
  rewrite execute_query_eq.
  destruct (cursor_execute drv db _ _) as [[db' c]|e] eqn:E; [|reflexivity].
  simpl. revert E. apply execute_frame with (table := table); [|exact Hn].
  intros st. now apply read_delete_table.
Qed.


(** ** Insert, then select by the returned id *)

Lemma fits_apply_affinity (drv : driver) (a : affinity) (v : value) :
  fits a v = true -> apply_affinity drv a v = v.
Proof. destruct a, v; simpl; intros H; try reflexivity; discriminate. Qed.

Lemma find_col_spec (cols : list column) (k : string) : forall i0 j,
  find_col cols k i0 = Some j ->
  exists i c, j = (i0 + i)%nat /\ nth_error cols i = Some c /\
              name_eqb (col_name c) k = true.
Proof.
  induction cols as [|c cols IH]; intros i0 j; simpl; [discriminate|].
  destruct (name_eqb (col_name c) k) eqn:E; intros H.
  - injection H as <-. exists 0%nat, c. rewrite Nat.add_0_r. auto.
  - apply IH in H as (i & c' & -> & Hn & Hc).
    exists (S i), c'. repeat split; try assumption. lia.
Qed.

Lemma resolve_col (t : table) (k : string) (i : nat) :
  resolve t k = Some (CCol i) ->
  name_eqb k "id" = false /\
  find_col (tbl_cols t) k 0 = Some i /\
  exists c, nth_error (tbl_cols t) i = Some c /\
            name_eqb (col_name c) k = true.
Proof.
  unfold resolve. destruct (name_eqb k "id"); [discriminate|].
  destruct (find_col (tbl_cols t) k 0) as [j|] eqn:E.
  - intros H. injection H as <-. repeat split.
    apply find_col_spec in E as (i & c & -> & Hn & Hc). eauto.
  - destruct (is_rowid_alias k); discriminate.
Qed.

Lemma resolve_all_cons (t : table) (k : string) (ks : list string)
      (refs : list colref) :
  resolve_all t (k :: ks) = Some refs ->
  exists r rs, refs = r :: rs /\ resolve t k = Some r /\
               resolve_all t ks = Some rs.
Proof.
  simpl. destruct (resolve t k) as [r|]; [|discriminate].
  destruct (resolve_all t ks) as [rs|]; [|discriminate].
  intros H. injection H as <-. eauto.
Qed.

(** The value given for a column is the value of the key that names it. *)
Lemma lookup_resolved (t : table) (data : dict) : forall refs k v i,
  resolve_all t (keys data) = Some refs ->
  NoDup (map upper (keys data)) ->
  In (k, v) data ->
  resolve t k = Some (CCol i) ->
  lookup_ref (combine refs (values data)) (CCol i) = Some v.
Proof.
  induction data as [|[k0 v0] data IH]; intros refs k v i Hr Hnd Hin Hk;
    [destruct Hin|].
  change (keys ((k0, v0) :: data)) with (k0 :: keys data) in Hr, Hnd.
  apply resolve_all_cons in Hr as (r & rs & -> & Hr0 & Hrs).
  simpl in Hnd. inversion Hnd as [|? ? Hnotin Hnd']; subst.
  simpl. destruct Hin as [Heq | Hin].
  - injection Heq as -> ->. rewrite Hr0 in Hk. injection Hk as ->.
    simpl. now rewrite Nat.eqb_refl.
  - destruct (colref_eqb r (CCol i)) eqn:E.
    + exfalso. destruct r as [|j]; [discriminate|]. simpl in E.
      apply Nat.eqb_eq in E. subst j.
      apply resolve_col in Hr0 as (_ & _ & c0 & Hc0 & Hn0).
      apply resolve_col in Hk as (_ & _ & c & Hc & Hn).
      rewrite Hc0 in Hc. injection Hc as ->.
      apply name_eqb_upper in Hn0, Hn. apply Hnotin.
      rewrite <- Hn0, Hn. apply in_map.
      change k with (fst (k, v)). now apply in_map.
    + eauto.
Qed.

Lemma insert_values_length (drv : driver) (cols : list column)
      (given : list (colref * value)) : forall i,
  length (insert_values drv cols i given) = length cols.
Proof. induction cols as [|c cols IH]; intros i; simpl; auto. Qed.

Lemma insert_values_nth (drv : driver) (cols : list column)
      (given : list (colref * value)) : forall i0 i c,
  nth_error cols i = Some c ->
  nth_error (insert_values drv cols i0 given) i =
  Some (apply_affinity drv (col_aff c)
          (match lookup_ref given (CCol (i0 + i)) with
           | Some v => v
           | None => default_value drv c
           end)).
Proof.
  induction cols as [|c0 cols IH]; intros i0 [|i] c; simpl; try discriminate.
  - intros H. injection H as <-. now rewrite Nat.add_0_r.
  - intros H. rewrite (IH (S i0) i c H).
    replace (S i0 + i)%nat with (i0 + S i)%nat by lia. reflexivity.
Qed.

Lemma row_get_combine (cols : list column) (k : string) : forall vals i0 j,
  find_col cols k i0 = Some j ->
  length vals = length cols ->
  row_get (combine (map col_name cols) vals) k = nth_error vals (j - i0).
Proof.
  induction cols as [|c cols IH]; intros vals i0 j; simpl; [discriminate|].
  destruct vals as [|v vals]; [discriminate|]. simpl.
  destruct (name_eqb (col_name c) k) eqn:E; intros H Hl.
  - injection H as <-. now rewrite Nat.sub_diag.
  - injection Hl as Hl. rewrite (IH vals (S i0) j H Hl).
    apply find_col_spec in H as (i & c' & -> & _ & _).
    replace (S i0 + i - i0)%nat with (S (S i0 + i - S i0)) by lia.
    reflexivity.
Qed.

Lemma sort_rows_single (leb : row -> row -> bool) (r : row) :
  sort_rows leb [r] = [r].
Proof. reflexivity. Qed.

Lemma rowid_free_filter (z : Z) (rows : list row) :
  rowid_free z rows = true ->
  filter (fun r => (fst r =? z)%Z) rows = [].
Proof.
  unfold rowid_free. induction rows as [|r rows IH]; simpl; [reflexivity|].
  destruct (fst r =? z)%Z; simpl; [discriminate | exact IH].
Qed.

Lemma rowid_free_not_in (z : Z) (rows : list row) :
  rowid_free z rows = true -> ~ In z (map fst rows).
Proof.
  unfold rowid_free. induction rows as [|r rows IH]; simpl; [tauto|].
  destruct (fst r =? z)%Z eqn:E; simpl; [discriminate|].
  apply Z.eqb_neq in E. intros H [H' | H']; [congruence | now apply IH].
Qed.

Lemma row_matches_id (drv : driver) (t : table) (z : Z) (r : row) :
  row_matches drv t [(CRowid, VInt z)] r = (fst r =? z)%Z.
Proof. unfold row_matches. simpl. now rewrite andb_true_r. Qed.

(** [select_records(table, {"id": z})] returns the rows whose id is [z]. *)
Lemma select_by_id (drv : driver) (db : database) (t : table)
      (table : string) (z : Z) :
  is_name table = true ->
  find_table db table = Some t ->
  in_int64 z = true ->
  DatabaseManager.select_records drv db table (Some [("id", VInt z)]) None None
  = Ok (map (row_mapping t)
            (sort_rows (row_leb [])
               (sort_rows by_rowid
                  (filter (fun r => (fst r =? z)%Z) (tbl_rows t))))).
Proof.
  intros Ht Hf Hz. unfold DatabaseManager.select_records.
  rewrite execute_query_eq. unfold cursor_execute.
  rewrite read_select_query;
    [|assumption | discriminate | repeat constructor].
  cbn [bind of_option]. rewrite Hf.
  change (DatabaseManager.select_parameters (Some [("id", VInt z)]))
    with [VInt z].
  cbn [keys map fst].
  change (resolve_all t ["id"]) with (Some [CRowid]).
  change (resolve_order t []) with (Some (@nil (colref * bool))).
  unfold bind_parameters.
  cbn [bind of_option length Nat.eqb forallb bindable].
  rewrite Hz. cbn [bind andb]. unfold step_select. cbn [bind combine].
  unfold project, apply_limit. cbn [fetchall].
  assert (R1 : resolve_all t ["id"] = Some [CRowid]) by reflexivity.
  assert (R2 : resolve_order t [] = Some []) by reflexivity.
  rewrite R1, R2. cbn [bind of_option combine].
  rewrite (filter_ext _ _ (row_matches_id drv t z)). reflexivity.
Qed.

Lemma constraints_ok_rowid_free (t : table) (r : row) (others : list row) :
  constraints_ok t r others = true -> rowid_free (fst r) others = true.
Proof.
  unfold constraints_ok. intros H.
  apply andb_prop in H as [H _]. now apply andb_prop in H as [_ H].
Qed.



(** ** Update by id *)

Lemma update_rows_by_id (drv : driver) (t : table)
      (sets : list (colref * value)) (X : Z) :
  forall todo done rows' n,
    update_rows drv t sets [(CRowid, VInt X)] done todo = Ok (rows', n) ->
    exists todo',
      rows' = done ++ todo' /\
      Forall2 (fun r r' : row => fst r <> X -> r' = r) todo todo' /\
      n = Z.of_nat (length (filter (fun r : row => (fst r =? X)%Z) todo)).
Proof.
  induction todo as [|r todo IH]; intros done rows' n H.
  - simpl in H. injection H as <- <-. exists []. rewrite app_nil_r. auto.
  - cbn [update_rows] in H. rewrite row_matches_id in H. simpl filter.
    destruct (fst r =? X)%Z eqn:E.
    + inv_bind_as H r' Hr'.
      destruct (constraints_ok t r' (done ++ todo)); [|discriminate].
      inv_bind_as H out Hout. injection H as <- <-.
      destruct out as [rows1 n1].
      apply IH in Hout as (todo' & -> & HF & ->).
      exists (r' :: todo'). rewrite <- app_assoc. simpl.
      repeat split.
      * constructor; [|exact HF]. apply Z.eqb_eq in E. congruence.
      * lia.
    + apply IH in H as (todo' & -> & HF & ->).
      exists (r :: todo'). rewrite <- app_assoc. simpl.
      repeat split. constructor; [reflexivity | exact HF].
Qed.

Lemma count_by_id (X : Z) (rows : list row) :
  NoDup (map fst rows) ->
  Z.of_nat (length (filter (fun r : row => (fst r =? X)%Z) rows))
  = if existsb (fun r : row => (fst r =? X)%Z) rows then 1 else 0.
Proof.
  induction rows as [|r rows IH]; simpl; [reflexivity|].
  intros H. inversion H as [|? ? Hnotin Hnd]; subst.
  destruct (fst r =? X)%Z eqn:E; simpl.
  - apply Z.eqb_eq in E. subst X.
    assert (Hnone : filter (fun r0 : row => (fst r0 =? fst r)%Z) rows = []).
    { clear IH H Hnd. induction rows as [|x rows IH]; simpl; [reflexivity|].
      simpl in Hnotin. destruct (fst x =? fst r)%Z eqn:Ex.
      - apply Z.eqb_eq in Ex. exfalso. apply Hnotin. now left.
      - apply IH. intros Hc. apply Hnotin. now right. }
    unfold row in *. now rewrite Hnone.
  - now apply IH.
Qed.

Lemma skipn_length_app {A} (l l' : list A) : skipn (length l) (l ++ l') = l'.
Proof. induction l; simpl; auto. Qed.

Lemma firstn_length_app {A} (l l' : list A) : firstn (length l) (l ++ l') = l.
Proof. induction l; simpl; [reflexivity | now f_equal]. Qed.

Lemma Forall2_same {A} (P : A -> Prop) (l : list A) :
  Forall2 (fun r r' => P r -> r' = r) l l.
Proof. induction l; constructor; auto. Qed.




(** ** Unique columns of [users] *)

Lemma users_keys_names (ks : list string) :
  Forall (fun k => In k users_keys) ks ->
  Forall (fun k => is_name k = true) ks.
Proof.
  apply Forall_impl. intros k H. simpl in H.
  repeat (destruct H as [<- | H]; [reflexivity|]). destruct H.
Qed.

Lemma users_keys_upper (a b : string) :
  In a users_keys -> In b users_keys -> upper a = upper b -> a = b.
Proof.
  intros Ha Hb. simpl in Ha, Hb.
  repeat (destruct Ha as [<- | Ha]; [
    repeat (destruct Hb as [<- | Hb];
            [intros E; first [reflexivity | discriminate E]|]);
    destruct Hb |]).
  destruct Ha.
Qed.

Lemma users_keys_nodup (ks : list string) :
  Forall (fun k => In k users_keys) ks -> NoDup ks -> NoDup (map upper ks).
Proof.
  induction ks as [|k ks IH]; intros HF Hnd; simpl; [constructor|].
  inversion HF; subst. inversion Hnd; subst. constructor; [|auto].
  intros Hin. apply in_map_iff in Hin as (k' & E & Hk').
  assert (k' = k).
  { apply users_keys_upper; try assumption.
    rewrite Forall_forall in H2. auto. }
  congruence.
Qed.

Lemma users_keys_resolve (t : table) (ks : list string) :
  tbl_cols t = DatabaseManager.users_columns ->
  Forall (fun k => In k users_keys) ks ->
  exists refs, resolve_all t ks = Some refs.
Proof.
  intros Hc. induction ks as [|k ks IH]; intros HF; [now exists []|].
  inversion HF as [|? ? Hk HF']; subst.
  destruct (IH HF') as (refs & Hr). simpl. rewrite Hr.
  assert (exists r, resolve t k = Some r) as (r & ->).
  { unfold resolve. rewrite Hc. simpl in Hk.
    repeat (destruct Hk as [<- | Hk]; [eexists; reflexivity|]).
    destruct Hk. }
  eauto.
Qed.

Lemma step_insert_violation (drv : driver) (db : database) (t : table)
      (given : list (colref * value)) :
  next_rowid t <= int64_max ->
  (forall z, constraints_ok t (z, insert_values drv (tbl_cols t) 0 given)
                            (tbl_rows t) = false) ->
  step_insert drv db t given = Raise IntegrityError.
Proof.
  intros Hroom Hbad. unfold step_insert.
  apply Z.leb_le in Hroom.
  assert (Hid : forall v, (exists z, must_be_int drv v = Ok z)
                          \/ must_be_int drv v = Raise IntegrityError).
  { intros v. unfold must_be_int. destruct (numeric_affinity drv v); eauto. }
  destruct (lookup_ref given CRowid) as [v|].
  - destruct v as [|x|q|s|b];
      try (rewrite Hroom; cbn [bind]; now rewrite Hbad);
      match goal with
      | |- context [must_be_int drv ?v] =>
          destruct (Hid v) as [[z ->] | ->]; cbn [bind];
          [now rewrite Hbad | reflexivity]
      end.
  - rewrite Hroom. cbn [bind]. now rewrite Hbad.
Qed.

Lemma unique_ok_conflict (cols : list column) (others : list row) (r : row) :
  forall vals i0 i c v,
    nth_error cols i = Some c -> col_unique c = true ->
    nth_error vals i = Some v -> is_null v = false ->
    In r others -> sql_eqb (nth (i0 + i) (snd r) VNull) v = true ->
    unique_ok cols i0 vals others = false.
Proof.
  induction cols as [|c0 cols IH]; intros vals i0 [|i] c v; simpl;
    try discriminate.
  - intros Hc Hu Hv Hn Hin Heq. injection Hc as ->.
    destruct vals as [|v0 vals]; [discriminate|]. injection Hv as ->.
    rewrite Nat.add_0_r in Heq. simpl. rewrite Hu, Hn. simpl.
    replace (existsb _ others) with true; [reflexivity|].
    symmetry. apply existsb_exists. eauto.
  - intros Hc Hu Hv Hn Hin Heq.
    destruct vals as [|v0 vals]; [discriminate|]. simpl in Hv. simpl.
    rewrite (IH vals (S i0) i c v); try assumption.
    + apply andb_false_r.
    + now replace (S i0 + i)%nat with (i0 + S i)%nat by lia.
Qed.

Lemma constraints_conflict (drv : driver) (t : table) (data : dict)
      (refs : list colref) (existing : row) (k : string) (i : nat)
      (c : column) (s : string) :
  resolve_all t (keys data) = Some refs ->
  NoDup (map upper (keys data)) ->
  In (k, VText s) data ->
  resolve t k = Some (CCol i) ->
  nth_error (tbl_cols t) i = Some c ->
  col_unique c = true -> col_aff c = AffText ->
  In existing (tbl_rows t) ->
  nth i (snd existing) VNull = VText s ->
  forall z,
    constraints_ok t
      (z, insert_values drv (tbl_cols t) 0 (combine refs (values data)))
      (tbl_rows t) = false.
Proof.
  intros Hr Hnd Hin Hk Hc Hu Ha Hex Hval z. unfold constraints_ok.
  cbn [fst snd].
  rewrite (unique_ok_conflict (tbl_cols t) (tbl_rows t) existing _ 0%nat i c
             (VText s)); try assumption.
  - apply andb_false_r.
  - rewrite (insert_values_nth drv _ _ 0%nat i c Hc). simpl Nat.add.
    rewrite (lookup_resolved t data refs k (VText s) i Hr Hnd Hin Hk).
    now rewrite Ha.
  - reflexivity.
  - simpl Nat.add. rewrite Hval. simpl. apply String.eqb_refl.
Qed.



